(** * irmin-blocksci, [c_bin/benchmark.c]: the benchmark queries over a
    libirmin store, embedded as Rocq functions.

    C strings are values of [string] (the bytes before the terminating NUL).
    [int] is 32 bits, [long], [long long], [int64_t] are 64 bits (LP64), and
    every machine integer is a [Z] with its wrap-around written out: an
    [int64_t] sum, difference or product is taken modulo [2^64], as the
    two's-complement machine computes it.  A NULL pointer result is [None].
    The functions of libirmin are a record of functions, one store being
    one value of it. *)

From Stdlib Require Import ZArith NArith List String Ascii Bool Lia.
From Stdlib Require Import Permutation DecimalString.
From Stdlib Require Decimal DecimalPos DecimalZ.
Import ListNotations.

Open Scope string_scope.
Open Scope Z_scope.

(* ===================================================================== *)
(** ** Machine integers *)

Module CInt.

Definition INT_MIN : Z := - 2 ^ 31.
Definition INT_MAX : Z := 2 ^ 31 - 1.
Definition LLONG_MIN : Z := - 2 ^ 63.
Definition LLONG_MAX : Z := 2 ^ 63 - 1.

(** Conversion to a signed [w]-bit integer: the value modulo [2^w],
    taken in [[-2^(w-1), 2^(w-1))]. *)
Definition wrap (w : Z) (z : Z) : Z :=
  (z + 2 ^ (w - 1)) mod 2 ^ w - 2 ^ (w - 1).

(** [(int)z] and [(int64_t)z]. *)
Definition to_int (z : Z) : Z := wrap 32 z.
Definition to_int64 (z : Z) : Z := wrap 64 z.

(** [a + b], [a - b], [a * b] on [int64_t]. *)
Definition add64 (a b : Z) : Z := to_int64 (a + b).
Definition sub64 (a b : Z) : Z := to_int64 (a - b).
Definition mul64 (a b : Z) : Z := to_int64 (a * b).

(** [a / b] on [int64_t]: the quotient truncated toward zero. *)
Definition div64 (a b : Z) : Z := to_int64 (Z.quot a b).

Definition in_int64 (z : Z) : Prop := LLONG_MIN <= z <= LLONG_MAX.

End CInt.
Import CInt.

(* ===================================================================== *)
(** ** The C library functions the program calls *)

Module CString.

(** [isspace] in the C locale: space, \t, \n, \v, \f, \r. *)
Definition isspace (c : ascii) : bool :=
  let n := nat_of_ascii c in
  Nat.eqb n 32 || (Nat.leb 9 n && Nat.leb n 13).

(** The value of a decimal digit, [None] for any other character. *)
Definition digit_val (c : ascii) : option Z :=
  let n := nat_of_ascii c in
  if Nat.leb 48 n && Nat.leb n 57 then Some (Z.of_nat n - 48) else None.

(** [strncmp(s, p, strlen(p)) == 0]: [p] is a prefix of [s]. *)
Fixpoint starts_with (p s : string) : bool :=
  match p, s with
  | EmptyString, _ => true
  | String a p', String b s' => Ascii.eqb a b && starts_with p' s'
  | String _ _, EmptyString => false
  end.

(** [strstr(hay, needle)]: the suffix of [hay] that begins at the first
    occurrence of [needle], NULL when there is none. *)
Fixpoint strstr (hay needle : string) : option string :=
  if starts_with needle hay then Some hay
  else match hay with
       | EmptyString => None
       | String _ hay' => strstr hay' needle
       end.

(** [strrchr(s, c)] for [c <> 0]: the suffix of [s] that begins at the
    last occurrence of [c], NULL when there is none. *)
Fixpoint strrchr (s : string) (c : ascii) : option string :=
  match s with
  | EmptyString => None
  | String a s' =>
      match strrchr s' c with
      | Some r => Some r
      | None => if Ascii.eqb a c then Some s else None
      end
  end.

(** [p + 1] for a pointer into a string. *)
Definition advance1 (s : string) : string :=
  match s with
  | EmptyString => EmptyString
  | String _ s' => s'
  end.

(** [p + n]. *)
Fixpoint advance (n : nat) (s : string) : string :=
  match n, s with
  | O, _ => s
  | S n', String _ s' => advance n' s'
  | S _, EmptyString => EmptyString
  end.

(** [while ( *pos == ' ') pos++;] *)
Fixpoint skip_spaces (s : string) : string :=
  match s with
  | String c s' => if Ascii.eqb c " " then skip_spaces s' else s
  | EmptyString => s
  end.

(** The white space [strtol] and [strtoll] skip first. *)
Fixpoint skip_isspace (s : string) : string :=
  match s with
  | String c s' => if isspace c then skip_isspace s' else s
  | EmptyString => s
  end.

(** The longest run of decimal digits at the start of [s], accumulated
    left to right from [acc]. *)
Fixpoint read_digits (s : string) (acc : Z) : Z :=
  match s with
  | String c s' =>
      match digit_val c with
      | Some d => read_digits s' (10 * acc + d)
      | None => acc
      end
  | EmptyString => acc
  end.

(** Saturation of an out-of-range conversion, as [strtoll] does. *)
Definition clamp64 (z : Z) : Z :=
  if z <? LLONG_MIN then LLONG_MIN
  else if LLONG_MAX <? z then LLONG_MAX
  else z.

(** [strtoll(s, NULL, 10)]: white space, an optional sign, then the
    longest run of digits; 0 when no digit follows; [LLONG_MIN] or
    [LLONG_MAX] when the value is out of range. *)
Definition strtoll (s : string) : Z :=
  let s1 := skip_isspace s in
  let '(neg, s2) :=
    match s1 with
    | String c s' =>
        if Ascii.eqb c "-" then (true, s')
        else if Ascii.eqb c "+" then (false, s')
        else (false, s1)
    | EmptyString => (false, s1)
    end in
  let v := read_digits s2 0 in
  clamp64 (if neg then - v else v).

(** [atoi(s)], which is [(int) strtol(s, NULL, 10)], with a 64-bit
    [long]. *)
Definition atoi (s : string) : Z := to_int (strtoll s).

(** What [printf] writes for [%d] and [%ld]. *)
Definition fmt_d (z : Z) : string := NilZero.string_of_int (Z.to_int z).

(** [snprintf(buf, size, ...)] keeps at most [size - 1] characters of
    the formatted text. *)
Definition snprintf (size : nat) (formatted : string) : string :=
  substring 0 (size - 1) formatted.

End CString.
Import CString.

(* ===================================================================== *)
(** ** The libirmin interface ([irmin.h]) *)

Module Irmin.

(** The functions of libirmin the program calls, for one opened
    repository and its main store.  An [IrminPathArray] is the list of
    what [irmin_path_array_get] returns at each index below
    [irmin_path_array_length]; [irmin_value_to_string] is taken at the
    path type; [irmin_contents_to_string] gives the C string that
    [irmin_string_data] points to. *)
Record Store : Type := {
  IrminPath : Type;
  IrminContents : Type;
  irmin_path_of_string : string -> option IrminPath;
  irmin_find : IrminPath -> option IrminContents;
  irmin_contents_to_string : IrminContents -> option string;
  irmin_list : IrminPath -> option (list (option IrminPath));
  irmin_value_to_string : IrminPath -> option string
}.

Definition IrminPathArray (s : Store) : Type := list (option (IrminPath s)).

(** [(int64_t) irmin_path_array_length(repo, arr)]. *)
Definition array_length64 {s : Store} (arr : IrminPathArray s) : Z :=
  to_int64 (Z.of_nat (List.length arr)).

(** The store that lists each directory in another order: [sigma p]
    rearranges the array [irmin_list] returns at [p]. *)
Definition relist (s : Store)
    (sigma : IrminPath s -> IrminPathArray s -> IrminPathArray s) : Store :=
  {| IrminPath := IrminPath s;
     IrminContents := IrminContents s;
     irmin_path_of_string := irmin_path_of_string s;
     irmin_find := irmin_find s;
     irmin_contents_to_string := irmin_contents_to_string s;
     irmin_list := fun p => option_map (sigma p) (irmin_list s p);
     irmin_value_to_string := irmin_value_to_string s |}.

End Irmin.
Import Irmin.

(* ===================================================================== *)
(** ** [benchmark.c] *)

Module Bench.

Definition dquote : ascii := "034"%char.

(** [json_get_int64], lines 26-34.  The pattern is written into
    [char search[256]], so [snprintf] keeps its first 255 characters. *)
Definition json_get_int64 (json key : string) : Z :=
  let search := snprintf 256 (String dquote (key ++ String dquote ":")) in
  match strstr json search with
  | None => 0
  | Some pos => strtoll (skip_spaces (advance (String.length search) pos))
  end.

(** [json_get_int], lines 36-38. *)
Definition json_get_int (json key : string) : Z :=
  to_int (json_get_int64 json key).

Section WithStore.

Variable s : Store.

(** [make_path], lines 52-54. *)
Definition make_path (path_str : string) : option (IrminPath s) :=
  irmin_path_of_string s path_str.

(** [get_content], lines 57-72. *)
Definition get_content (path_str : string) : option string :=
  match make_path path_str with
  | None => None
  | Some path =>
      match irmin_find s path with
      | None => None
      | Some contents => irmin_contents_to_string s contents
      end
  end.

(** [list_path], lines 75-82. *)
Definition list_path (path_str : string) : option (IrminPathArray s) :=
  match make_path path_str with
  | None => None
  | Some path => irmin_list s path
  end.

(** [path_to_string], lines 85-94. *)
Definition path_to_string (path : IrminPath s) : option string :=
  irmin_value_to_string s path.

(** The head of every loop over an array: [irmin_path_array_get],
    then [path_to_string]; [None] where the loop takes [continue]. *)
Definition entry_string (e : option (IrminPath s)) : option string :=
  match e with
  | None => None
  | Some p => path_to_string p
  end.

(** The body of the loop of [find_last_block_height], lines 105-118. *)
Definition height_step (max_height : Z) (e : option (IrminPath s)) : Z :=
  match entry_string e with
  | None => max_height
  | Some pstr =>
      match strrchr pstr "/" with
      | Some slash =>
          let height := atoi (advance1 slash) in
          if max_height <? height then height else max_height
      | None => max_height
      end
  end.

(** [find_last_block_height], lines 97-123. *)
Definition find_last_block_height : Z :=
  match list_path "block" with
  | None => -1
  | Some blocks => fold_left height_step blocks (-1)
  end.

(** [query_block_count], [query_tx_count], [query_address_count],
    lines 130-154. *)
Definition query_block_count : Z :=
  match list_path "block" with
  | None => 0
  | Some blocks => array_length64 blocks
  end.

Definition query_tx_count : Z :=
  match list_path "tx" with
  | None => 0
  | Some txs => array_length64 txs
  end.

Definition query_address_count : Z :=
  match list_path "address" with
  | None => 0
  | Some addrs => array_length64 addrs
  end.

(** The paths the queries format into [char path[256]]; an [int] takes
    at most 11 characters, so none of them is cut. *)
Definition block_txs_path (height : Z) : string :=
  snprintf 256 ("index/block_txs/" ++ fmt_d height).
Definition tx_inputs_path (tx_id : Z) : string :=
  snprintf 256 ("index/tx_inputs/" ++ fmt_d tx_id).
Definition tx_outputs_path (tx_id : Z) : string :=
  snprintf 256 ("index/tx_outputs/" ++ fmt_d tx_id).
Definition output_path (tx_id vout : Z) : string :=
  snprintf 256 ("output/" ++ fmt_d tx_id ++ "/" ++ fmt_d vout).

(** The values [height] takes in
    [for (int height = 0; height <= last_height; height++)], for a
    [last_height] below [INT_MAX].  At [INT_MAX] the increment overflows
    and the loop does not end: a statement that gives what such a loop
    returns, or what is printed after it, assumes
    [find_last_block_height s < INT_MAX].  [height_loop] runs the loop
    step by step. *)
Definition heights (last_height : Z) : list Z :=
  map Z.of_nat (seq 0 (Z.to_nat (last_height + 1))).

(** The content of a block-tx reference decoded to its [tx_id]
    (lines 181-186, and the same lines of the other block queries):
    [None] where the loop takes [continue]. *)
Definition resolve_tx_id (ref_path : string) : option Z :=
  match get_content ref_path with
  | None => None
  | Some tx_ref => Some (json_get_int tx_ref "tx_id")
  end.

(** The content of a tx-output reference decoded to [(tx_id, vout)],
    lines 353-359 and 453-459. *)
Definition resolve_output_ref (ref_path : string) : option (Z * Z) :=
  match get_content ref_path with
  | None => None
  | Some out_ref =>
      Some (json_get_int out_ref "tx_id", json_get_int out_ref "vout")
  end.

(** The two outer loops shared by [query_input_count],
    [query_output_count], [query_max_output_value] and
    [query_total_output_value]: over the heights, then over the
    references of [index/block_txs/<height>]; [body] is what the query
    does with the accumulator once [tx_id] is known. *)
Definition block_tx_step (body : Z -> Z -> Z) (acc : Z)
    (e : option (IrminPath s)) : Z :=
  match entry_string e with
  | None => acc
  | Some tx_path_str =>
      match resolve_tx_id tx_path_str with
      | None => acc
      | Some tx_id => body acc tx_id
      end
  end.

Definition block_step (body : Z -> Z -> Z) (acc : Z) (height : Z) : Z :=
  match list_path (block_txs_path height) with
  | None => acc
  | Some tx_refs => fold_left (block_tx_step body) tx_refs acc
  end.

Definition for_each_block_tx (body : Z -> Z -> Z) : Z :=
  let last_height := find_last_block_height in
  if last_height <? 0 then 0
  else fold_left (block_step body) (heights last_height) 0.

(** [query_input_count], lines 157-202. *)
Definition count_inputs (count tx_id : Z) : Z :=
  match list_path (tx_inputs_path tx_id) with
  | Some inputs => add64 count (array_length64 inputs)
  | None => count
  end.

Definition query_input_count : Z := for_each_block_tx count_inputs.

(** [query_output_count], lines 205-247. *)
Definition count_outputs (count tx_id : Z) : Z :=
  match list_path (tx_outputs_path tx_id) with
  | Some outputs => add64 count (array_length64 outputs)
  | None => count
  end.

Definition query_output_count : Z := for_each_block_tx count_outputs.

(** The loop shared by the queries over the [tx] listing: [body] is
    what the query does with the accumulator and the content of one
    transaction. *)
Definition tx_step (body : Z -> string -> Z) (acc : Z)
    (e : option (IrminPath s)) : Z :=
  match entry_string e with
  | None => acc
  | Some tx_path_str =>
      match get_content tx_path_str with
      | None => acc
      | Some tx_json => body acc tx_json
      end
  end.

Definition for_each_tx (body : Z -> string -> Z) : Z :=
  match list_path "tx" with
  | None => 0
  | Some txs => fold_left (tx_step body) txs 0
  end.

(** [query_tx_locktime_gt_0], lines 250-276. *)
Definition query_tx_locktime_gt_0 : Z :=
  for_each_tx (fun count tx_json =>
    let locktime := json_get_int64 tx_json "locktime" in
    if 0 <? locktime then add64 count 1 else count).

(** [query_tx_version_gt_1], lines 279-305. *)
Definition query_tx_version_gt_1 : Z :=
  for_each_tx (fun count tx_json =>
    let version := json_get_int tx_json "version" in
    if 1 <? version then add64 count 1 else count).

(** The inner loop of [query_max_output_value] and
    [query_total_output_value], over the references of
    [index/tx_outputs/<tx_id>]; [body] is what the query does with the
    accumulator and one decoded [value]. *)
Definition output_step (body : Z -> Z -> Z) (acc : Z)
    (e : option (IrminPath s)) : Z :=
  match entry_string e with
  | None => acc
  | Some out_path_str =>
      match resolve_output_ref out_path_str with
      | None => acc
      | Some (out_tx_id, out_vout) =>
          match get_content (output_path out_tx_id out_vout) with
          | Some output_json =>
              body acc (json_get_int64 output_json "value")
          | None => acc
          end
      end
  end.

Definition outputs_step (body : Z -> Z -> Z) (acc tx_id : Z) : Z :=
  match list_path (tx_outputs_path tx_id) with
  | None => acc
  | Some outputs => fold_left (output_step body) outputs acc
  end.

(** [if (value > max) max = value;] *)
Definition keep_max (max value : Z) : Z :=
  if max <? value then value else max.

(** [query_max_output_value], lines 308-377. *)
Definition query_max_output_value : Z :=
  for_each_block_tx (outputs_step keep_max).

(** [query_calculate_fee], lines 380-406. *)
Definition query_calculate_fee : Z :=
  for_each_tx (fun max_fee tx_json =>
    keep_max max_fee (json_get_int64 tx_json "fee")).

(** [query_total_output_value], lines 409-476. *)
Definition query_total_output_value : Z :=
  for_each_block_tx (outputs_step add64).

(** [query_total_fees], lines 479-504. *)
Definition query_total_fees : Z :=
  for_each_tx (fun total tx_json =>
    add64 total (json_get_int64 tx_json "fee")).

(** [query_avg_tx_per_block], lines 507-513. *)
Definition query_avg_tx_per_block : Z :=
  let block_count := query_block_count in
  if block_count =? 0 then 0
  else
    let tx_count := query_tx_count in
    div64 (mul64 tx_count 1000) block_count.

(** [query_max_tx_per_block], lines 516-535. *)
Definition max_tx_step (max_tx height : Z) : Z :=
  match list_path (block_txs_path height) with
  | None => max_tx
  | Some tx_refs => keep_max max_tx (array_length64 tx_refs)
  end.

Definition query_max_tx_per_block : Z :=
  let last_height := find_last_block_height in
  if last_height <? 0 then 0
  else fold_left max_tx_step (heights last_height) 0.

(** [query_spent_outputs], lines 538-564. *)
Definition spent_step (count : Z) (e : option (IrminPath s)) : Z :=
  match entry_string e with
  | None => count
  | Some tx_path_str =>
      match list_path tx_path_str with
      | Some vouts => add64 count (array_length64 vouts)
      | None => count
      end
  end.

Definition query_spent_outputs : Z :=
  match list_path "index/spent_by" with
  | None => 0
  | Some spent => fold_left spent_step spent 0
  end.

(** [query_unspent_outputs], lines 567-571. *)
Definition query_unspent_outputs : Z :=
  let total_outputs := query_output_count in
  let spent := query_spent_outputs in
  sub64 total_outputs spent.

(** [query_high_value_tx], lines 574-601. *)
Definition query_high_value_tx : Z :=
  let threshold := 1000000000 in
  for_each_tx (fun count tx_json =>
    let fee := json_get_int64 tx_json "fee" in
    if threshold <? fee then add64 count 1 else count).

(** [query_multi_input_tx], lines 604-638. *)
Definition multi_input_body (count : Z) (tx_json : string) : Z :=
  let tx_id := json_get_int tx_json "tx_id" in
  match list_path (tx_inputs_path tx_id) with
  | Some inputs =>
      if (10 <? List.length inputs)%nat then add64 count 1 else count
  | None => count
  end.

Definition query_multi_input_tx : Z := for_each_tx multi_input_body.

End WithStore.

(** [benchmark_t] and the table [benchmarks], lines 644-668, without
    the terminating [{NULL, NULL}]. *)
Record benchmark_t : Type := {
  name : string;
  query : Store -> Z
}.

Definition benchmarks : list benchmark_t :=
  [ {| name := "Block count"; query := query_block_count |};
    {| name := "Tx count"; query := query_tx_count |};
    {| name := "Input count"; query := query_input_count |};
    {| name := "Output count"; query := query_output_count |};
    {| name := "Address count"; query := query_address_count |};
    {| name := "Tx locktime > 0"; query := query_tx_locktime_gt_0 |};
    {| name := "Max output value"; query := query_max_output_value |};
    {| name := "Calculate fee"; query := query_calculate_fee |};
    {| name := "Total output value"; query := query_total_output_value |};
    {| name := "Total fees"; query := query_total_fees |};
    {| name := "Tx version > 1"; query := query_tx_version_gt_1 |};
    {| name := "Avg tx per block"; query := query_avg_tx_per_block |};
    {| name := "Max tx per block"; query := query_max_tx_per_block |};
    {| name := "Spent outputs"; query := query_spent_outputs |};
    {| name := "Unspent outputs"; query := query_unspent_outputs |};
    {| name := "High value tx"; query := query_high_value_tx |};
    {| name := "Multi-input tx"; query := query_multi_input_tx |} ].

(** The clock [main] reads: [get_time_ms n] is what the [n]-th call of
    [get_time_ms()] returns, and [fmt_elapsed start stop] is what
    [printf] writes for [%.3f] of [stop - start]. *)
Record Clock : Type := {
  Time : Type;
  get_time_ms : nat -> Time;
  fmt_elapsed : Time -> Time -> string
}.

(** One pass of the loop of [main], lines 717-724: the line written,
    without its newline. *)
Definition bench_line (clk : Clock) (s : Store) (n : nat)
    (b : benchmark_t) : string :=
  let start := get_time_ms clk n in
  let result := query b s in
  let stop := get_time_ms clk (S n) in
  name b ++ "," ++ fmt_elapsed clk start stop ++ "," ++ fmt_d result.

Fixpoint run_from (clk : Clock) (s : Store) (n : nat)
    (bs : list benchmark_t) : list string :=
  match bs with
  | [] => []
  | b :: bs' => bench_line clk s n b :: run_from clk s (S (S n)) bs'
  end.

(** What [main] writes to standard output once the store is open,
    lines 713-724, as the list of its lines. *)
Definition main_output (clk : Clock) (s : Store) : list string :=
  "Query,Time_ms,Result" :: run_from clk s 0 benchmarks.

End Bench.
Import Bench.

(* ===================================================================== *)
(** ** Stores given by finite tables *)

Module MemStore.

Fixpoint assoc {A : Type} (k : string) (l : list (string * A)) : option A :=
  match l with
  | [] => None
  | (k', v) :: l' => if String.eqb k k' then Some v else assoc k l'
  end.

(** The store whose paths are their strings, with content [contents]
    and, at each directory of [dirs], the children listed in the order
    given; every other path has no content and an empty listing. *)
Definition mem_store (contents : list (string * string))
    (dirs : list (string * list string)) : Store :=
  {| IrminPath := string;
     IrminContents := string;
     irmin_path_of_string := fun p => Some p;
     irmin_find := fun p => assoc p contents;
     irmin_contents_to_string := fun c => Some c;
     irmin_list := fun p =>
       match assoc p dirs with
       | Some l => Some (map Some l)
       | None => Some []
       end;
     irmin_value_to_string := fun p => Some p |}.

(** The text ["k":v] of one field, and a flat record of fields. *)
Definition field (k v : string) : string :=
  String dquote (k ++ String dquote (":" ++ v)).

Definition record (fields : list string) : string :=
  "{" ++ String.concat "," fields ++ "}".

(** [dir/0], ..., [dir/(n-1)]. *)
Definition numbered (dir : string) (n : nat) : list string :=
  map (fun i => dir ++ "/" ++ fmt_d (Z.of_nat i)) (seq 0 n).

(** The store of the scenario of the specification: two blocks, three
    transactions, eleven inputs of transaction 1, two outputs. *)
Definition scenario : Store :=
  mem_store
    [ ("index/block_txs/0/0", record [field "tx_id" "0"]);
      ("index/block_txs/1/0", record [field "tx_id" "1"]);
      ("index/block_txs/1/1", record [field "tx_id" "2"]);
      ("tx/0", record [field "tx_id" "0"; field "fee" "100";
                       field "locktime" "0"; field "version" "1"]);
      ("tx/1", record [field "tx_id" "1"; field "fee" "2000000000";
                       field "locktime" "5"; field "version" "2"]);
      ("tx/2", record [field "tx_id" "2"; field "fee" "50";
                       field "locktime" "0"; field "version" "1"]);
      ("index/tx_outputs/0/0",
         record [field "tx_id" "0"; field "vout" "0"]);
      ("index/tx_outputs/1/0",
         record [field "tx_id" "1"; field "vout" "0"]);
      ("output/0/0", record [field "value" "1000"]);
      ("output/1/0", record [field "value" "500"]) ]
    [ ("block", ["block/0"; "block/1"]);
      ("tx", ["tx/0"; "tx/1"; "tx/2"]);
      ("index/block_txs/0", ["index/block_txs/0/0"]);
      ("index/block_txs/1", ["index/block_txs/1/0"; "index/block_txs/1/1"]);
      ("index/tx_inputs/1", numbered "index/tx_inputs/1" 11);
      ("index/tx_outputs/0", ["index/tx_outputs/0/0"]);
      ("index/tx_outputs/1", ["index/tx_outputs/1/0"]) ].

(** A store whose only block has a negative suffix. *)
Definition negative_height_store : Store :=
  mem_store [] [("block", ["block/-5"])].

(** A store whose only transaction has a negative fee. *)
Definition negative_fee_store : Store :=
  mem_store [("tx/0", record [field "tx_id" "0"; field "fee" "-5"])]
            [("tx", ["tx/0"])].


(** A block-tx reference whose [tx_id] needs more than 32 bits. *)
Definition wide_ref : string := record [field "tx_id" "4294967296"].

Definition wide_tx_id_store : Store :=
  mem_store [("index/block_txs/0/0", wide_ref)]
            [("block", ["block/0"]);
             ("index/block_txs/0", ["index/block_txs/0/0"])].

(** A key of 253 characters, and a record in which the text ["key"] is
    followed by a digit and not by a colon. *)
Definition long_key : string := string_of_list_ascii (repeat "a"%char 253).

Definition long_key_record : string :=
  String dquote (long_key ++ String dquote "7").

(** A store with one spent output recorded and no output indexed. *)
Definition overspent_store : Store :=
  mem_store [] [("index/spent_by", ["index/spent_by/3"]);
                ("index/spent_by/3", ["index/spent_by/3/0"])].

(** A store whose only transaction has exactly [n] inputs indexed. *)
Definition inputs_store (n : nat) : Store :=
  mem_store [("tx/7", record [field "tx_id" "7"; field "fee" "1"])]
            [("tx", ["tx/7"]);
             ("index/tx_inputs/7", numbered "index/tx_inputs/7" n)].

(** A clock that always reads the same time. *)
Definition still_clock : Clock :=
  {| Time := unit;
     get_time_ms := fun _ => tt;
     fmt_elapsed := fun _ _ => "0.000" |}.

End MemStore.
Import MemStore.

(* ===================================================================== *)
(** ** What the loops go through, as lists *)

Module View.

Definition olist {A : Type} (o : option A) : list A :=
  match o with
  | Some x => [x]
  | None => []
  end.

(** The sum of a list of integers, and the largest of [floor] and the
    integers of a list. *)
Definition total (l : list Z) : Z := fold_right Z.add 0 l.
Definition max_from (floor : Z) (l : list Z) : Z := fold_right Z.max floor l.

(** The largest integer of a list, [default] for the empty list. *)
Definition max_or (default : Z) (l : list Z) : Z :=
  match l with
  | [] => default
  | x :: l' => max_from x l'
  end.

(** A step of accumulation whose result does not depend on the order in
    which two elements are taken. *)
Definition order_blind {A E : Type} (f : A -> E -> A) : Prop :=
  forall a x y, f (f a x) y = f (f a y) x.

(** The text after the last ['/'] of a path string. *)
Definition final_segment (pstr : string) : option string :=
  option_map advance1 (strrchr pstr "/").

(** [true] when, after white space and an optional sign, [seg] goes on
    with a decimal digit: the case in which [atoi] converts a number. *)
Definition leading_number (seg : string) : bool :=
  let s1 := skip_isspace seg in
  let s2 :=
    match s1 with
    | String c s' =>
        if Ascii.eqb c "-" || Ascii.eqb c "+" then s' else s1
    | EmptyString => s1
    end in
  match s2 with
  | String c _ => match digit_val c with Some _ => true | None => false end
  | EmptyString => false
  end.

(** The text ["key":] that [json_get_int64] looks for. *)
Definition pattern (key : string) : string :=
  String dquote (key ++ String dquote ":").

(** [n] spaces. *)
Fixpoint spaces (n : nat) : string :=
  match n with
  | O => EmptyString
  | S n' => String " " (spaces n')
  end.

(** [true] unless [rest] begins with a decimal digit. *)
Definition no_digit_ahead (rest : string) : bool :=
  match rest with
  | String c _ => match digit_val c with Some _ => false | None => true end
  | EmptyString => true
  end.

Section WithStore.

Variable s : Store.

(** The strings of the children listed at [path_str], in the order of
    the array; none when there is no array. *)
Definition listing (path_str : string) : list string :=
  match list_path s path_str with
  | None => []
  | Some arr => flat_map (fun e => olist (entry_string s e)) arr
  end.

(** The number of children listed at [path_str] as an [int64_t], 0
    when there is no array. *)
Definition size (path_str : string) : Z :=
  match list_path s path_str with
  | None => 0
  | Some arr => array_length64 arr
  end.

(** The integer suffixes of the children of [block]. *)
Definition block_heights : list Z :=
  flat_map (fun pstr => olist (option_map atoi (final_segment pstr)))
           (listing "block").

(** The contents of the transactions listed at [tx]. *)
Definition tx_records : list string :=
  flat_map (fun p => olist (get_content s p)) (listing "tx").

Definition tx_fees : list Z :=
  map (fun tx_json => json_get_int64 tx_json "fee") tx_records.

(** The transaction ids the references of one block resolve to, and
    those of all blocks from height 0 to the last one. *)
Definition block_tx_ids (height : Z) : list Z :=
  flat_map (fun p => olist (resolve_tx_id s p))
           (listing (block_txs_path height)).

Definition all_tx_ids : list Z :=
  flat_map block_tx_ids (heights (find_last_block_height s)).

(** The values of the outputs the references of one transaction
    resolve to, and those of all transactions of all blocks. *)
Definition output_value (p : string) : list Z :=
  match resolve_output_ref s p with
  | None => []
  | Some (out_tx_id, out_vout) =>
      olist (option_map (fun output_json =>
                           json_get_int64 output_json "value")
                        (get_content s (output_path out_tx_id out_vout)))
  end.

Definition tx_output_values (tx_id : Z) : list Z :=
  flat_map output_value (listing (tx_outputs_path tx_id)).

Definition output_values : list Z :=
  flat_map tx_output_values all_tx_ids.

(** [true] when the transaction of content [tx_json] has more than 10
    entries listed under [index/tx_inputs/<tx_id>]. *)
Definition has_many_inputs (tx_json : string) : bool :=
  match list_path s (tx_inputs_path (json_get_int tx_json "tx_id")) with
  | Some inputs => (10 <? List.length inputs)%nat
  | None => false
  end.

End WithStore.

(** The 17 metrics, under the names the specification gives them. *)
Inductive Metric : Type :=
| block_count | tx_count | address_count | input_count | output_count
| tx_locktime_gt_0 | tx_version_gt_1 | max_output_value | calculate_fee
| total_output_value | total_fees | avg_tx_per_block | max_tx_per_block
| spent_outputs | unspent_outputs | high_value_tx | multi_input_tx.

(** The row of [benchmarks] that computes a metric. *)
Definition bench_of (m : Metric) : benchmark_t :=
  match m with
  | block_count => {| name := "Block count"; query := query_block_count |}
  | tx_count => {| name := "Tx count"; query := query_tx_count |}
  | address_count =>
      {| name := "Address count"; query := query_address_count |}
  | input_count => {| name := "Input count"; query := query_input_count |}
  | output_count =>
      {| name := "Output count"; query := query_output_count |}
  | tx_locktime_gt_0 =>
      {| name := "Tx locktime > 0"; query := query_tx_locktime_gt_0 |}
  | tx_version_gt_1 =>
      {| name := "Tx version > 1"; query := query_tx_version_gt_1 |}
  | max_output_value =>
      {| name := "Max output value"; query := query_max_output_value |}
  | calculate_fee =>
      {| name := "Calculate fee"; query := query_calculate_fee |}
  | total_output_value =>
      {| name := "Total output value";
         query := query_total_output_value |}
  | total_fees => {| name := "Total fees"; query := query_total_fees |}
  | avg_tx_per_block =>
      {| name := "Avg tx per block"; query := query_avg_tx_per_block |}
  | max_tx_per_block =>
      {| name := "Max tx per block"; query := query_max_tx_per_block |}
  | spent_outputs =>
      {| name := "Spent outputs"; query := query_spent_outputs |}
  | unspent_outputs =>
      {| name := "Unspent outputs"; query := query_unspent_outputs |}
  | high_value_tx =>
      {| name := "High value tx"; query := query_high_value_tx |}
  | multi_input_tx =>
      {| name := "Multi-input tx"; query := query_multi_input_tx |}
  end.

(** The order of the catalog of the specification. *)
Definition catalog_order : list Metric :=
  [ block_count; tx_count; address_count; input_count; output_count;
    tx_locktime_gt_0; tx_version_gt_1; max_output_value; calculate_fee;
    total_output_value; total_fees; avg_tx_per_block; max_tx_per_block;
    spent_outputs; unspent_outputs; high_value_tx; multi_input_tx ].

(** The order of the rows of [benchmarks]. *)
Definition table_order : list Metric :=
  [ block_count; tx_count; input_count; output_count; address_count;
    tx_locktime_gt_0; max_output_value; calculate_fee;
    total_output_value; total_fees; tx_version_gt_1; avg_tx_per_block;
    max_tx_per_block; spent_outputs; unspent_outputs; high_value_tx;
    multi_input_tx ].

(** The lines after the header when the metrics run in [order]. *)
Definition lines_in (order : list Metric) (clk : Clock) (s : Store)
    : list string :=
  run_from clk s 0 (map bench_of order).

End View.
Import View.

(* ===================================================================== *)
(** ** More lists the loops go through *)

Module Measure.

(** The number of elements of [l] that pass the test [p]. *)
Definition count_if {C : Type} (p : C -> bool) (l : list C) : Z :=
  Z.of_nat (List.length (filter p l)).

(** [true] when every character of [t] is a decimal digit. *)
Fixpoint all_digits (t : string) : bool :=
  match t with
  | EmptyString => true
  | String c t' =>
      match digit_val c with
      | Some _ => all_digits t'
      | None => false
      end
  end.

Section WithStore.

Variable s : Store.

(** The length of the array listed at [path_str], as the one-element
    list a loop adds to its count; nothing when there is no array. *)
Definition listing_sizes (path_str : string) : list Z :=
  match list_path s path_str with
  | Some arr => [array_length64 arr]
  | None => []
  end.

(** The lengths [query_input_count] and [query_output_count] add up:
    one per transaction id resolved from the blocks. *)
Definition input_sizes : list Z :=
  flat_map (fun tx_id => listing_sizes (tx_inputs_path tx_id)) (all_tx_ids s).

Definition output_sizes : list Z :=
  flat_map (fun tx_id => listing_sizes (tx_outputs_path tx_id))
           (all_tx_ids s).

(** The lengths [query_max_tx_per_block] compares: one per height that
    has an array under [index/block_txs]. *)
Definition block_tx_sizes : list Z :=
  flat_map (fun height => listing_sizes (block_txs_path height))
           (heights (find_last_block_height s)).

(** The lengths [query_spent_outputs] adds up: one per child of
    [index/spent_by] that has an array. *)
Definition spent_sizes : list Z :=
  flat_map listing_sizes (listing s "index/spent_by").

(** The tests of the counting queries on the content of a transaction. *)
Definition locktime_gt_0 (tx_json : string) : bool :=
  0 <? json_get_int64 tx_json "locktime".

Definition version_gt_1 (tx_json : string) : bool :=
  1 <? json_get_int tx_json "version".

Definition fee_gt_threshold (tx_json : string) : bool :=
  1000000000 <? json_get_int64 tx_json "fee".

End WithStore.

End Measure.
Import Measure.

(* ===================================================================== *)
(** ** The two programs: [main] of [benchmark.c] and of [query_block.c] *)

Module Process.

(** What a program holds from libirmin until it frees it. *)
Inductive Handle : Type :=
| HConfig | HRepo | HStore | HErrString | HPath | HContents | HValue.

Inductive Event : Type :=
| Acquire (h : Handle)
| Release (h : Handle).

Definition handle_eqb (a b : Handle) : bool :=
  match a, b with
  | HConfig, HConfig | HRepo, HRepo | HStore, HStore
  | HErrString, HErrString | HPath, HPath | HContents, HContents
  | HValue, HValue => true
  | _, _ => false
  end.

(** The lines written to standard output and to standard error, and the
    handles acquired and released, each in the order of the calls. *)
Record World : Type := {
  stdout : list string;
  stderr : list string;
  events : list Event
}.

Definition start : World := {| stdout := []; stderr := []; events := [] |}.

(** A step of a program: a result and the world after it. *)
Definition Run (A : Type) : Type := World -> A * World.

Definition ret {A : Type} (a : A) : Run A := fun w => (a, w).

Definition bind {A B : Type} (c : Run A) (k : A -> Run B) : Run B :=
  fun w => let (a, w') := c w in k a w'.

Definition puts (line : string) : Run unit :=
  fun w => (tt, {| stdout := stdout w ++ [line];
                   stderr := stderr w;
                   events := events w |}).

Definition eputs (line : string) : Run unit :=
  fun w => (tt, {| stdout := stdout w;
                   stderr := stderr w ++ [line];
                   events := events w |}).

Definition emit (e : Event) : Run unit :=
  fun w => (tt, {| stdout := stdout w;
                   stderr := stderr w;
                   events := events w ++ [e] |}).

Definition acquire (h : Handle) : Run unit := emit (Acquire h).
Definition release (h : Handle) : Run unit := emit (Release h).

Fixpoint puts_all (lines : list string) : Run unit :=
  match lines with
  | [] => ret tt
  | line :: lines' => bind (puts line) (fun _ => puts_all lines')
  end.

(** The handles still held after the events [tr], starting from [live];
    [None] when a handle is acquired while held or released while not
    held. *)
Fixpoint live_after (live : list Handle) (tr : list Event)
    : option (list Handle) :=
  match tr with
  | [] => Some live
  | Acquire h :: tr' =>
      if existsb (handle_eqb h) live then None
      else live_after (h :: live) tr'
  | Release h :: tr' =>
      if existsb (handle_eqb h) live
      then live_after (filter (fun h' => negb (handle_eqb h h')) live) tr'
      else None
  end.

(** Every handle acquired is released, once, and nothing else is. *)
Definition balanced (tr : list Event) : bool :=
  match live_after [] tr with
  | Some [] => true
  | _ => false
  end.

(** What opening a repository gives: the error [irmin_repo_has_error]
    and [irmin_repo_get_error] report, if any, and the store [irmin_main]
    returns, if any. *)
Record Repo : Type := {
  repo_error : option string;
  repo_main : option Store
}.

(** The functions of libirmin that open a store: whether
    [irmin_config_pack] returns a configuration, whether
    [irmin_config_set_root] accepts a root, and what [irmin_repo_new]
    returns for a configuration with that root. *)
Record Libirmin : Type := {
  irmin_config_pack : bool;
  irmin_config_set_root : string -> bool;
  irmin_repo_new : string -> option Repo
}.

(** [(argc > 1) ? argv[1] : default]. *)
Definition store_path_of (default : string) (argv : list string) : string :=
  match argv with
  | _ :: path :: _ => path
  | _ => default
  end.

End Process.
Import Process.

Declare Scope run_scope.
Delimit Scope run_scope with run.
Notation "c1 ;; c2" := (bind c1 (fun _ => c2))
  (at level 61, right associativity) : run_scope.

Module BenchmarkMain.

(** [main] of [benchmark.c], lines 670-732: the exit status. *)
Definition main (lib : Libirmin) (clk : Clock) (argv : list string)
    : Run Z :=
  (let store_path := store_path_of "./local-store" argv in
   if negb (irmin_config_pack lib) then
     eputs "Error: Failed to create config" ;; ret 1
   else
     acquire HConfig ;;
     if negb (irmin_config_set_root lib store_path) then
       eputs "Error: Failed to set root path" ;;
       release HConfig ;; ret 1
     else
       match irmin_repo_new lib store_path with
       | None =>
           eputs "Error: Failed to create repo" ;;
           release HConfig ;; ret 1
       | Some repo =>
           acquire HRepo ;;
           match repo_error repo with
           | Some err =>
               acquire HErrString ;;
               eputs ("Error: " ++ err) ;;
               release HErrString ;; release HRepo ;; release HConfig ;;
               ret 1
           | None =>
               match repo_main repo with
               | None =>
                   eputs "Error: Failed to get main store" ;;
                   release HRepo ;; release HConfig ;; ret 1
               | Some s =>
                   acquire HStore ;;
                   puts "Query,Time_ms,Result" ;;
                   puts_all (run_from clk s 0 benchmarks) ;;
                   release HStore ;; release HRepo ;; release HConfig ;;
                   ret 0
               end
           end
       end)%run.

End BenchmarkMain.

Module QueryBlock.

(** What [main] of [query_block.c] prints for the content found at
    [block/0], lines 88-102. *)
Definition show_block (s : Store) (path : IrminPath s) : Run unit :=
  (match irmin_find s path with
   | None =>
       puts "   Block 0 not found in store." ;;
       puts "   Make sure you have imported data first:" ;;
       puts "   dune exec irmin-blocksci -- import <csv-export-dir>"
   | Some contents =>
       acquire HContents ;;
       match irmin_contents_to_string s contents with
       | Some value =>
           acquire HValue ;;
           puts "" ;;
           puts "=== Block 0 (Genesis Block) ===" ;;
           puts value ;;
           release HValue
       | None => ret tt
       end ;;
       release HContents
   end)%run.

(** The lines [show_block] prints. *)
Definition block_lines (s : Store) (path : IrminPath s) : list string :=
  match irmin_find s path with
  | None =>
      [ "   Block 0 not found in store.";
        "   Make sure you have imported data first:";
        "   dune exec irmin-blocksci -- import <csv-export-dir>" ]
  | Some contents =>
      match irmin_contents_to_string s contents with
      | Some value => [ ""; "=== Block 0 (Genesis Block) ==="; value ]
      | None => []
      end
  end.

(** [main] of [query_block.c], lines 23-113: the exit status. *)
Definition main (lib : Libirmin) (argv : list string) : Run Z :=
  (let store_path := store_path_of "/tmp/irmin-blocksci-store" argv in
   puts "=== irmin-blocksci C Query Example ===" ;;
   puts "" ;;
   puts "1. Creating pack store config..." ;;
   if negb (irmin_config_pack lib) then
     eputs "Error: Failed to create config" ;; ret 1
   else
     acquire HConfig ;;
     puts ("2. Setting store root to: " ++ store_path) ;;
     if negb (irmin_config_set_root lib store_path) then
       eputs "Error: Failed to set root path" ;;
       release HConfig ;; ret 1
     else
       puts "3. Opening repository..." ;;
       match irmin_repo_new lib store_path with
       | None =>
           eputs "Error: Failed to create repo" ;;
           release HConfig ;; ret 1
       | Some repo =>
           acquire HRepo ;;
           match repo_error repo with
           | Some err =>
               acquire HErrString ;;
               eputs ("Error: " ++ err) ;;
               release HErrString ;; release HRepo ;; release HConfig ;;
               ret 1
           | None =>
               puts "4. Getting main branch..." ;;
               match repo_main repo with
               | None =>
                   eputs "Error: Failed to get main store" ;;
                   release HRepo ;; release HConfig ;; ret 1
               | Some s =>
                   acquire HStore ;;
                   puts "5. Creating path for 'block/0'..." ;;
                   match irmin_path_of_string s "block/0" with
                   | None =>
                       eputs "Error: Failed to create path" ;;
                       release HStore ;; release HRepo ;;
                       release HConfig ;; ret 1
                   | Some path =>
                       acquire HPath ;;
                       puts "6. Looking up block 0..." ;;
                       show_block s path ;;
                       puts "" ;;
                       puts "7. Cleaning up..." ;;
                       release HPath ;; release HStore ;;
                       release HRepo ;; release HConfig ;;
                       puts "Done!" ;;
                       ret 0
                   end
               end
           end
       end)%run.



End QueryBlock.

(** Library and stores for the instances. *)
Module ProcessExamples.

(** A libirmin that opens [scenario] at every root. *)
Definition lib_ok : Libirmin :=
  {| irmin_config_pack := true;
     irmin_config_set_root := fun _ => true;
     irmin_repo_new := fun _ =>
       Some {| repo_error := None; repo_main := Some scenario |} |}.

(** A libirmin whose repository reports an error. *)
Definition lib_broken : Libirmin :=
  {| irmin_config_pack := true;
     irmin_config_set_root := fun _ => true;
     irmin_repo_new := fun _ =>
       Some {| repo_error := Some "no such store"; repo_main := None |} |}.

(** A store with a content at [block/0]. *)
Definition genesis_store : Store :=
  mem_store [("block/0", record [field "height" "0"])]
            [("block", ["block/0"])].

Definition lib_genesis : Libirmin :=
  {| irmin_config_pack := true;
     irmin_config_set_root := fun _ => true;
     irmin_repo_new := fun _ =>
       Some {| repo_error := None; repo_main := Some genesis_store |} |}.

(** A store whose [tx] listing holds one transaction of fee exactly
    1000000000 and one of fee 1000000001. *)
Definition threshold_store : Store :=
  mem_store
    [ ("tx/0", record [field "tx_id" "0"; field "fee" "1000000000";
                       field "locktime" "-1"; field "version" "4294967298"]);
      ("tx/1", record [field "tx_id" "1"; field "fee" "1000000001";
                       field "locktime" "1"; field "version" "2"]) ]
    [ ("tx", ["tx/0"; "tx/1"]) ].

(** A store with the indices of a transaction populated and no block. *)
Definition blockless_store : Store :=
  mem_store
    [ ("index/block_txs/0/0", record [field "tx_id" "1"]);
      ("index/tx_outputs/1/0", record [field "tx_id" "1"; field "vout" "0"]);
      ("output/1/0", record [field "value" "9"]) ]
    [ ("index/block_txs/0", ["index/block_txs/0/0"]);
      ("index/tx_inputs/1", numbered "index/tx_inputs/1" 3);
      ("index/tx_outputs/1", ["index/tx_outputs/1/0"]) ].

End ProcessExamples.
Import ProcessExamples.

(* ===================================================================== *)
(** ** The directory of the inputs of a transaction *)

Module InputsDir.

(** The directory under which the specification looks for the inputs of
    the transaction of content [tx_json]: [index/tx_inputs/] followed by
    the [tx_id] field as decoded to 64 bits. *)
Definition decoded_inputs_dir (tx_json : string) : string :=
  "index/tx_inputs/" ++ fmt_d (json_get_int64 tx_json "tx_id").

(** The same with the [tx_id] converted to the 32-bit [int]. *)
Definition int_inputs_dir (tx_json : string) : string :=
  "index/tx_inputs/" ++ fmt_d (to_int (json_get_int64 tx_json "tx_id")).

(** [true] when the directory [dir] has a listing of more than 10
    entries. *)
Definition more_than_10_at (s : Store) (dir : string) : bool :=
  match list_path s dir with
  | Some inputs => (10 <? List.length inputs)%nat
  | None => false
  end.

(** A store whose only transaction has a [tx_id] that needs more than 32
    bits and eleven inputs indexed under that [tx_id]. *)
Definition wide_inputs_store : Store :=
  mem_store
    [ ("tx/0", record [field "tx_id" "4294967303"; field "fee" "1"]) ]
    [ ("tx", ["tx/0"]);
      ("index/tx_inputs/4294967303",
         numbered "index/tx_inputs/4294967303" 11) ].

End InputsDir.
Import InputsDir.

(* ===================================================================== *)
(** ** The loop over the heights, step by step *)

Module HeightLoop.

(** [for (int height = 0; height <= last_height; height++) body], from
    the current [height] and accumulator, for at most [fuel] tests of the
    condition: the result once the condition fails, [None] when it has not
    failed after [fuel] tests.  [height++] is the 32-bit increment. *)
Fixpoint height_loop {A : Type} (fuel : nat) (last_height : Z)
    (body : A -> Z -> A) (height : Z) (acc : A) : option A :=
  match fuel with
  | O => None
  | S fuel' =>
      if height <=? last_height
      then height_loop fuel' last_height body (to_int (height + 1))
                       (body acc height)
      else Some acc
  end.

(** A store whose only block is at height [INT_MAX]. *)
Definition top_height_store : Store :=
  mem_store [] [("block", ["block/2147483647"])].

End HeightLoop.
Import HeightLoop.

(* ===================================================================== *)
(** ** Facts on machine integers *)

Module CIntFacts.

Lemma to_int64_range (z : Z) : in_int64 (to_int64 z).
Proof.
  unfold in_int64, to_int64, wrap, LLONG_MIN, LLONG_MAX.
  pose proof (Z.mod_pos_bound (z + 2 ^ (64 - 1)) (2 ^ 64) eq_refl).
  change (2 ^ (64 - 1)) with 9223372036854775808 in *.
  change (2 ^ 64) with 18446744073709551616 in *.
  change (2 ^ 63) with 9223372036854775808.
  lia.
Qed.

Lemma to_int64_id (z : Z) : in_int64 z -> to_int64 z = z.
Proof.
  unfold in_int64, to_int64, wrap, LLONG_MIN, LLONG_MAX.
  change (2 ^ (64 - 1)) with 9223372036854775808.
  change (2 ^ 64) with 18446744073709551616.
  change (2 ^ 63) with 9223372036854775808.
  intros H. rewrite Z.mod_small; lia.
Qed.

Lemma to_int_id (z : Z) : INT_MIN <= z <= INT_MAX -> to_int z = z.
Proof.
  unfold to_int, wrap, INT_MIN, INT_MAX.
  change (2 ^ (32 - 1)) with 2147483648.
  change (2 ^ 32) with 4294967296.
  change (2 ^ 31) with 2147483648.
  intros H. rewrite Z.mod_small; lia.
Qed.

Lemma to_int64_add_l (a b : Z) : to_int64 (to_int64 a + b) = to_int64 (a + b).
Proof.
  unfold to_int64, wrap. f_equal.
  replace ((a + 2 ^ (64 - 1)) mod 2 ^ 64 - 2 ^ (64 - 1) + b + 2 ^ (64 - 1))
    with ((a + 2 ^ (64 - 1)) mod 2 ^ 64 + b) by ring.
  rewrite Zplus_mod_idemp_l. f_equal. ring.
Qed.

Lemma to_int64_add_r (a b : Z) : to_int64 (a + to_int64 b) = to_int64 (a + b).
Proof. rewrite (Z.add_comm a), to_int64_add_l. f_equal. ring. Qed.

Lemma to_int64_idem (z : Z) : to_int64 (to_int64 z) = to_int64 z.
Proof. apply to_int64_id, to_int64_range. Qed.

Lemma keep_max_max (a x : Z) : keep_max a x = Z.max a x.
Proof. unfold keep_max. destruct (Z.ltb_spec a x); lia. Qed.

(** The division of an [int64_t] by a positive one stays in range. *)
Lemma quot_in_int64 (a b : Z) : in_int64 a -> 0 < b -> in_int64 (Z.quot a b).
Proof.
  unfold in_int64. intros Ha Hb.
  destruct (Z.le_gt_cases 0 a) as [H0|H0].
  - pose proof (Z.quot_pos a b H0 Hb).
    pose proof (Z.quot_le_upper_bound a b a Hb).
    assert (a ÷ b <= a) by (apply H1; nia).
    unfold LLONG_MIN, LLONG_MAX in *. lia.
  - assert (E : a ÷ b = - ((- a) ÷ b)) by (rewrite Z.quot_opp_l; lia).
    assert (H1 : 0 <= - a) by lia.
    pose proof (Z.quot_pos (- a) b H1 Hb).
    pose proof (Z.quot_le_upper_bound (- a) b (- a) Hb).
    assert (- a ÷ b <= - a) by (apply H2; nia).
    unfold LLONG_MIN, LLONG_MAX in *. lia.
Qed.

End CIntFacts.
Import CIntFacts.

(* ===================================================================== *)
(** ** Loops as folds over the lists they go through *)

Module FoldFacts.

Section Views.

Context {A E B : Type}.
Variable step : A -> E -> A.
Variable op : A -> B -> A.
Variable view : E -> list B.
Hypothesis step_view : forall a e, step a e = fold_left op (view e) a.

(** A loop whose body folds [op] over the view of the current
    element folds [op] over all the views, one after the other. *)
Lemma fold_left_view (l : list E) (a : A) :
  fold_left step l a = fold_left op (flat_map view l) a.
Proof.
  revert a. induction l as [|e l IH]; intros a; simpl.
  - reflexivity.
  - rewrite fold_left_app, <- step_view. apply IH.
Qed.

End Views.

Lemma max_from_max (a x : Z) (l : list Z) :
  max_from (Z.max a x) l = Z.max x (max_from a l).
Proof. induction l as [|y l IH]; simpl; lia. Qed.

Lemma fold_keep_max (l : list Z) (a : Z) :
  fold_left keep_max l a = max_from a l.
Proof.
  revert a. induction l as [|x l IH]; intros a; simpl.
  - reflexivity.
  - rewrite IH, keep_max_max. apply max_from_max.
Qed.

Lemma fold_add64 (l : list Z) (a : Z) :
  in_int64 a -> fold_left add64 l a = to_int64 (a + total l).
Proof.
  revert a. induction l as [|x l IH]; intros a Ha; simpl.
  - rewrite Z.add_0_r. symmetry. now apply to_int64_id.
  - rewrite IH by apply to_int64_range.
    unfold add64. rewrite to_int64_add_l. f_equal. ring.
Qed.

Lemma max_from_floor (a : Z) (l : list Z) : a <= max_from a l.
Proof. induction l as [|x l IH]; simpl; lia. Qed.


Lemma max_from_In (a : Z) (l : list Z) :
  max_from a l = a \/ In (max_from a l) l.
Proof.
  induction l as [|x l IH]; simpl.
  - now left.
  - destruct (Z.max_spec x (max_from a l)) as [[_ E]|[_ E]]; rewrite E.
    + destruct IH; auto.
    + auto.
Qed.

Lemma fold_left_map_op {A B C : Type} (op : A -> B -> A) (f : C -> B)
    (l : list C) (a : A) :
  fold_left (fun acc x => op acc (f x)) l a = fold_left op (map f l) a.
Proof. revert a. induction l; simpl; auto. Qed.

(** Counting the elements that pass a test, one increment at a time. *)
Lemma fold_count {C : Type} (p : C -> bool) (l : list C) (a : Z) :
  in_int64 a ->
  fold_left (fun count x => if p x then add64 count 1 else count) l a
  = to_int64 (a + Z.of_nat (List.length (filter p l))).
Proof.
  revert a. induction l as [|x l IH]; intros a Ha; simpl.
  - rewrite Z.add_0_r. symmetry. now apply to_int64_id.
  - destruct (p x); simpl List.length.
    + rewrite IH by apply to_int64_range.
      unfold add64. rewrite to_int64_add_l. f_equal. lia.
    + now apply IH.
Qed.

Lemma in_int64_0 : in_int64 0.
Proof. unfold in_int64, LLONG_MIN, LLONG_MAX. lia. Qed.

Lemma fold_left_same {A E : Type} (f g : A -> E -> A) :
  (forall a x, f a x = g a x) ->
  forall l a, fold_left f l a = fold_left g l a.
Proof.
  intros H l. induction l as [|x l IH]; intros a; simpl.
  - reflexivity.
  - rewrite H. apply IH.
Qed.

Lemma max_from_bounds (a : Z) (l : list Z) :
  Forall (fun x => x <= max_from a l) l.
Proof.
  induction l as [|x l IH]; simpl; constructor.
  - lia.
  - eapply Forall_impl; [|exact IH]. simpl. intros; lia.
Qed.

End FoldFacts.
Import FoldFacts.

(* ===================================================================== *)
(** ** Facts on the C library functions *)

Module CStringFacts.

Lemma read_digits_none (s : string) (acc : Z) :
  no_digit_ahead s = true -> read_digits s acc = acc.
Proof.
  destruct s as [|c s]; simpl; [reflexivity|].
  destruct (digit_val c); [discriminate | reflexivity].
Qed.

Lemma digit_val_not_sign (c : ascii) :
  (Ascii.eqb c "-" || Ascii.eqb c "+")%bool = true -> digit_val c = None.
Proof.
  intros H. apply orb_true_iff in H.
  destruct H as [H|H]; apply Ascii.eqb_eq in H; subst; reflexivity.
Qed.

(** Without a number in front, [strtoll] and [atoi] convert nothing and
    give 0. *)
Lemma strtoll_no_number (seg : string) :
  leading_number seg = false -> strtoll seg = 0.
Proof.
  unfold leading_number, strtoll.
  destruct (skip_isspace seg) as [|c s1]; [reflexivity|].
  destruct (Ascii.eqb c "-") eqn:Em; simpl.
  - intros H. rewrite read_digits_none; [reflexivity|].
    destruct s1 as [|d s1]; [reflexivity|]. simpl.
    destruct (digit_val d); [discriminate | reflexivity].
  - destruct (Ascii.eqb c "+") eqn:Ep; simpl.
    + intros H. rewrite read_digits_none; [reflexivity|].
      destruct s1 as [|d s1]; [reflexivity|]. simpl.
      destruct (digit_val d); [discriminate | reflexivity].
    + destruct (digit_val c); [discriminate | reflexivity].
Qed.

Lemma atoi_no_number (seg : string) :
  leading_number seg = false -> atoi seg = 0.
Proof. intros H. unfold atoi. now rewrite strtoll_no_number. Qed.

(** [strrchr] finds the last separator: behind it comes the final
    segment of the path. *)
Lemma strrchr_append (pre seg : string) (c : ascii) :
  strrchr seg c = None ->
  strrchr (pre ++ String c seg) c = Some (String c seg).
Proof.
  intros H. induction pre as [|a pre IH]; simpl.
  - now rewrite H, Ascii.eqb_refl.
  - now rewrite IH.
Qed.

Lemma final_segment_append (dir seg : string) :
  strrchr seg "/" = None -> final_segment (dir ++ "/" ++ seg) = Some seg.
Proof.
  intros H. unfold final_segment. simpl.
  now rewrite strrchr_append.
Qed.

(** *** [strstr]: the first occurrence *)

Lemma starts_with_iff (p s : string) :
  starts_with p s = true <-> exists post, s = p ++ post.
Proof.
  revert s. induction p as [|a p IH]; intros s; simpl.
  - split; [intros _; now exists s | reflexivity].
  - destruct s as [|b s].
    + split; [discriminate | intros [post H]; discriminate].
    + rewrite andb_true_iff, Ascii.eqb_eq, IH. split.
      * intros [-> [post ->]]. now exists post.
      * intros [post H]. injection H as -> ->.
        split; [reflexivity | now exists post].
Qed.

Lemma strstr_some (hay needle r : string) :
  strstr hay needle = Some r ->
  exists pre post, hay = pre ++ needle ++ post /\ r = needle ++ post.
Proof.
  induction hay as [|c hay IH]; simpl.
  - destruct (starts_with needle "") eqn:E; [|discriminate].
    intros [= <-]. apply starts_with_iff in E. destruct E as [post E].
    exists "", post. now split.
  - destruct (starts_with needle (String c hay)) eqn:E.
    + intros [= <-]. apply starts_with_iff in E. destruct E as [post E].
      exists "", post. now split.
    + intros H. destruct (IH H) as (pre & post & -> & ->).
      exists (String c pre), post. now split.
Qed.

(** [strstr] returns NULL exactly when the needle occurs nowhere. *)
Lemma strstr_none (hay needle : string) :
  strstr hay needle = None <-> forall pre post, hay <> pre ++ needle ++ post.
Proof.
  split.
  - induction hay as [|c hay IH]; simpl.
    + destruct (starts_with needle "") eqn:E; [discriminate|].
      intros _ pre post H. destruct pre; [|discriminate].
      assert (starts_with needle "" = true)
        by (apply starts_with_iff; now exists post).
      congruence.
    + destruct (starts_with needle (String c hay)) eqn:E; [discriminate|].
      intros H pre post H'. destruct pre as [|a pre].
      * assert (starts_with needle (String c hay) = true)
          by (apply starts_with_iff; now exists post).
        congruence.
      * injection H' as _ H'. now apply (IH H pre post).
  - intros H. destruct (strstr hay needle) as [r|] eqn:E; [|reflexivity].
    destruct (strstr_some _ _ _ E) as (pre & post & H' & _).
    now apply H in H'.
Qed.

(** [strstr] stops at the occurrence no other occurrence precedes. *)
Lemma strstr_first (needle pre post : string) :
  (forall pre' post', pre ++ needle ++ post = pre' ++ needle ++ post' ->
     (String.length pre <= String.length pre')%nat) ->
  strstr (pre ++ needle ++ post) needle = Some (needle ++ post).
Proof.
  induction pre as [|c pre IH]; intros Hmin.
  - simpl. assert (E : starts_with needle (needle ++ post) = true)
      by (apply starts_with_iff; now exists post).
    destruct (needle ++ post); simpl in *; now rewrite E.
  - simpl.
    destruct (starts_with needle (String c (pre ++ needle ++ post))) eqn:E.
    + apply starts_with_iff in E. destruct E as [post' E].
      specialize (Hmin "" post' E). simpl in Hmin. lia.
    + apply IH. intros pre' post' H.
      specialize (Hmin (String c pre') post'). simpl in Hmin.
      rewrite H in Hmin. specialize (Hmin eq_refl). lia.
Qed.

Lemma length_append (a b : string) :
  String.length (a ++ b) = (String.length a + String.length b)%nat.
Proof. induction a; simpl; auto. Qed.

(** No occurrence begins before the one [strstr] returns. *)
Lemma strstr_longest (hay needle r : string) :
  strstr hay needle = Some r ->
  forall pre' post', hay = pre' ++ needle ++ post' ->
    (String.length (needle ++ post') <= String.length r)%nat.
Proof.
  induction hay as [|c hay IH]; simpl.
  - destruct (starts_with needle ""); [|discriminate].
    intros [= <-] pre' post' H. apply (f_equal String.length) in H.
    rewrite length_append in H. lia.
  - destruct (starts_with needle (String c hay)) eqn:E.
    + intros [= <-] pre' post' H. apply (f_equal String.length) in H.
      rewrite length_append in H. lia.
    + intros H pre' post' H'. destruct pre' as [|a pre'].
      * assert (starts_with needle (String c hay) = true)
          by (apply starts_with_iff; now exists post').
        congruence.
      * injection H' as _ H'. now apply (IH H pre' post').
Qed.

Lemma strstr_is_first (needle pre post : string) :
  strstr (pre ++ needle ++ post) needle = Some (needle ++ post) ->
  forall pre' post', pre ++ needle ++ post = pre' ++ needle ++ post' ->
    (String.length pre <= String.length pre')%nat.
Proof.
  intros H pre' post' E.
  pose proof (strstr_longest _ _ _ H pre' post' E) as L.
  apply (f_equal String.length) in E.
  rewrite (length_append pre), (length_append pre') in E. lia.
Qed.

Lemma advance_append (p q : string) : advance (String.length p) (p ++ q) = q.
Proof. induction p; simpl; auto. Qed.

Lemma substring_all (n : nat) (t : string) :
  (String.length t <= n)%nat -> substring 0 n t = t.
Proof.
  revert n. induction t as [|c t IH]; intros n H; simpl in *.
  - now destruct n.
  - destruct n; [lia|]. f_equal. apply IH. lia.
Qed.

(** A key of at most 252 characters leaves room for the two quotes, the
    colon and the NUL in [search]. *)
Lemma search_fits (key : string) :
  (String.length key <= 252)%nat -> snprintf 256 (pattern key) = pattern key.
Proof.
  intros H. unfold snprintf. apply substring_all.
  unfold pattern. simpl. rewrite length_append. simpl. lia.
Qed.

(** *** [strtoll] reads back what [%d] and [%ld] write *)

Lemma read_digits_step (c : ascii) (s : string) (acc d : Z) :
  digit_val c = Some d ->
  read_digits (String c s) acc = read_digits s (10 * acc + d).
Proof. intros H. simpl. now rewrite H. Qed.

Lemma read_digits_uint (d : Decimal.uint) (rest : string) (a : N) :
  no_digit_ahead rest = true ->
  read_digits (NilEmpty.string_of_uint d ++ rest) (Z.of_N a)
  = Z.of_N (a * 10 ^ DecimalPos.Unsigned.usize d
            + DecimalPos.Unsigned.of_lu (Decimal.rev d)).
Proof.
  intros Hrest. revert a.
  induction d; intros a; simpl NilEmpty.string_of_uint; simpl append;
    [ simpl; rewrite read_digits_none by assumption; f_equal; lia | .. ];
    match goal with
    | |- read_digits (String ?c _) _ = _ =>
        let k := eval vm_compute in (Z.of_nat (nat_of_ascii c) - 48) in
        rewrite (read_digits_step c _ _ k eq_refl);
        replace (10 * Z.of_N a + k) with (Z.of_N (10 * a + Z.to_N k)) by lia
    end;
    rewrite IHd; f_equal;
    match goal with
    | |- context [Decimal.rev (?D d)] =>
        change (Decimal.rev (D d)) with (Decimal.revapp d (D Decimal.Nil));
        rewrite (DecimalPos.Unsigned.of_lu_revapp d (D Decimal.Nil))
    end;
    simpl DecimalPos.Unsigned.usize; rewrite N.pow_succ_r';
    simpl DecimalPos.Unsigned.of_lu; simpl Z.to_N; ring.
Qed.

(** What [%d] writes begins with a digit or with the minus sign. *)
Lemma uint_head (d : Decimal.uint) (rest : string) :
  d <> Decimal.Nil ->
  exists c t, NilEmpty.string_of_uint d ++ rest = String c t /\
    isspace c = false /\ Ascii.eqb c "-" = false /\
    Ascii.eqb c "+" = false /\ Ascii.eqb c " " = false.
Proof.
  destruct d; [congruence | ..]; intros _; simpl;
    eexists; eexists; (split; [reflexivity|]); repeat split.
Qed.

Lemma strtoll_uint (d : Decimal.uint) (rest : string) :
  no_digit_ahead rest = true ->
  strtoll (NilZero.string_of_uint d ++ rest) = clamp64 (Z.of_uint d).
Proof.
  intros Hrest. unfold Z.of_uint. rewrite DecimalPos.Unsigned.of_uint_alt.
  destruct (Decimal.uint_eq_dec d Decimal.Nil) as [->|Hd].
  - unfold strtoll. simpl. rewrite read_digits_none by assumption.
    reflexivity.
  - replace (NilZero.string_of_uint d) with (NilEmpty.string_of_uint d)
      by (destruct d; try reflexivity; congruence).
    pose proof (read_digits_uint d rest 0 Hrest) as Hread.
    destruct (uint_head d rest Hd) as (c & t & E & Hsp & Hm & Hp & _).
    unfold strtoll. rewrite E in *. simpl skip_isspace. rewrite Hsp, Hm, Hp.
    change (Z.of_N 0) with 0 in Hread. rewrite Hread. reflexivity.
Qed.

Lemma strtoll_fmt_d (z : Z) (rest : string) :
  no_digit_ahead rest = true -> strtoll (fmt_d z ++ rest) = clamp64 z.
Proof.
  intros Hrest. unfold fmt_d.
  rewrite <- (DecimalZ.of_to z) at 2.
  destruct (Z.to_int z) as [d|d]; simpl NilZero.string_of_int.
  - now apply strtoll_uint.
  - simpl append. unfold Z.of_int, Z.of_uint.
    rewrite DecimalPos.Unsigned.of_uint_alt.
    destruct (Decimal.uint_eq_dec d Decimal.Nil) as [->|Hd].
    + unfold strtoll. simpl. rewrite read_digits_none by assumption.
      reflexivity.
    + replace (NilZero.string_of_uint d) with (NilEmpty.string_of_uint d)
        by (destruct d; try reflexivity; congruence).
      pose proof (read_digits_uint d rest 0 Hrest) as Hread.
      unfold strtoll. simpl skip_isspace. cbv iota. simpl Ascii.eqb.
      cbv iota. change (Z.of_N 0) with 0 in Hread. rewrite Hread.
      reflexivity.
Qed.

Lemma skip_spaces_spaces (n : nat) (t : string) :
  skip_spaces (spaces n ++ t) = skip_spaces t.
Proof. induction n; simpl; auto. Qed.

Lemma skip_spaces_fmt_d (n : nat) (z : Z) (rest : string) :
  skip_spaces (spaces n ++ fmt_d z ++ rest) = fmt_d z ++ rest.
Proof.
  rewrite skip_spaces_spaces. unfold fmt_d.
  destruct (Z.to_int z) as [d|d]; simpl NilZero.string_of_int;
    [|reflexivity].
  destruct (Decimal.uint_eq_dec d Decimal.Nil) as [->|Hd]; [reflexivity|].
  replace (NilZero.string_of_uint d) with (NilEmpty.string_of_uint d)
    by (destruct d; try reflexivity; congruence).
  destruct (uint_head d rest Hd) as (c & t & E & _ & _ & _ & Hs).
  rewrite E. simpl. now rewrite Hs.
Qed.

(** *** [json_get_int64] *)

Lemma json_get_int64_absent (json key : string) :
  (String.length key <= 252)%nat ->
  (forall pre post, json <> pre ++ pattern key ++ post) ->
  json_get_int64 json key = 0.
Proof.
  intros Hlen Habs. unfold json_get_int64.
  fold (pattern key). rewrite (search_fits key Hlen).
  apply strstr_none in Habs. now rewrite Habs.
Qed.

Lemma json_get_int64_found (key pre post : string) :
  (String.length key <= 252)%nat ->
  (forall pre' post', pre ++ pattern key ++ post = pre' ++ pattern key ++ post'
     -> (String.length pre <= String.length pre')%nat) ->
  json_get_int64 (pre ++ pattern key ++ post) key
  = strtoll (skip_spaces post).
Proof.
  intros Hlen Hmin. unfold json_get_int64.
  fold (pattern key). rewrite (search_fits key Hlen).
  rewrite (strstr_first _ _ _ Hmin). now rewrite advance_append.
Qed.

End CStringFacts.
Import CStringFacts.

(* ===================================================================== *)
(** ** The loops of the queries *)

Module LoopFacts.

Section WithStore.

Variable s : Store.

(** A loop over an array that skips the entries without a string goes
    through the listing. *)
Lemma fold_entries {A : Type} (f : A -> string -> A)
    (arr : IrminPathArray s) (a : A) :
  fold_left (fun acc e => match entry_string s e with
                          | None => acc
                          | Some p => f acc p
                          end) arr a
  = fold_left f (flat_map (fun e => olist (entry_string s e)) arr) a.
Proof.
  apply fold_left_view. intros acc e.
  now destruct (entry_string s e).
Qed.

Lemma height_step_entries (arr : IrminPathArray s) (a : Z) :
  fold_left (height_step s) arr a
  = fold_left keep_max
      (flat_map (fun pstr => olist (option_map atoi (final_segment pstr)))
                (flat_map (fun e => olist (entry_string s e)) arr)) a.
Proof.
  etransitivity; [apply (fold_entries (fun m pstr =>
    match strrchr pstr "/" with
    | Some slash => keep_max m (atoi (advance1 slash))
    | None => m
    end))|].
  apply fold_left_view. intros m pstr. unfold final_segment.
  now destruct (strrchr pstr "/").
Qed.

Lemma find_last_block_height_max :
  find_last_block_height s = max_from (-1) (block_heights s).
Proof.
  unfold find_last_block_height, block_heights, listing.
  destruct (list_path s "block") as [blocks|]; [|reflexivity].
  rewrite height_step_entries. apply fold_keep_max.
Qed.

(** The loop over the [tx] listing goes through the contents of the
    transactions that have one. *)
Lemma for_each_tx_records (body : Z -> string -> Z) :
  for_each_tx s body = fold_left body (tx_records s) 0.
Proof.
  unfold for_each_tx, tx_records, listing.
  destruct (list_path s "tx") as [txs|]; [|reflexivity].
  etransitivity; [apply (fold_entries (fun acc tx_path_str =>
    match get_content s tx_path_str with
    | None => acc
    | Some tx_json => body acc tx_json
    end))|].
  apply fold_left_view. intros acc p. now destruct (get_content s p).
Qed.

Lemma multi_input_body_test (count : Z) (tx_json : string) :
  multi_input_body s count tx_json
  = if has_many_inputs s tx_json then add64 count 1 else count.
Proof.
  unfold multi_input_body, has_many_inputs.
  now destruct (list_path s (tx_inputs_path (json_get_int tx_json "tx_id"))).
Qed.

Lemma query_multi_input_tx_count :
  query_multi_input_tx s
  = to_int64 (Z.of_nat (List.length (filter (has_many_inputs s)
                                            (tx_records s)))).
Proof.
  unfold query_multi_input_tx. rewrite for_each_tx_records.
  rewrite (fold_left_same _ _ multi_input_body_test).
  now rewrite fold_count by apply in_int64_0.
Qed.

Lemma query_calculate_fee_max :
  query_calculate_fee s = max_from 0 (tx_fees s).
Proof.
  unfold query_calculate_fee, tx_fees. rewrite for_each_tx_records.
  rewrite (fold_left_map_op keep_max). apply fold_keep_max.
Qed.

(** The loop over the heights and the references of each block goes
    through the transaction ids the references resolve to. *)
Lemma block_step_ids (body : Z -> Z -> Z) (acc height : Z) :
  block_step s body acc height = fold_left body (block_tx_ids s height) acc.
Proof.
  unfold block_step, block_tx_ids, listing.
  destruct (list_path s (block_txs_path height)) as [tx_refs|];
    [|reflexivity].
  etransitivity; [apply (fold_entries (fun a p =>
    match resolve_tx_id s p with
    | None => a
    | Some tx_id => body a tx_id
    end))|].
  apply fold_left_view. intros a p. now destruct (resolve_tx_id s p).
Qed.

Lemma heights_negative (last_height : Z) :
  last_height < 0 -> heights last_height = [].
Proof.
  intros H. unfold heights.
  replace (Z.to_nat (last_height + 1)) with 0%nat by lia. reflexivity.
Qed.

Lemma for_each_block_tx_ids (body : Z -> Z -> Z) :
  for_each_block_tx s body = fold_left body (all_tx_ids s) 0.
Proof.
  unfold for_each_block_tx, all_tx_ids.
  destruct (Z.ltb_spec (find_last_block_height s) 0) as [H|H].
  - now rewrite heights_negative.
  - apply fold_left_view. intros. apply block_step_ids.
Qed.

(** The loop over the output references of a transaction goes through
    the values of the outputs they resolve to. *)
Lemma outputs_step_values (op : Z -> Z -> Z) (acc tx_id : Z) :
  outputs_step s op acc tx_id = fold_left op (tx_output_values s tx_id) acc.
Proof.
  unfold outputs_step, tx_output_values, listing.
  destruct (list_path s (tx_outputs_path tx_id)) as [outputs|];
    [|reflexivity].
  etransitivity; [apply (fold_entries (fun a p =>
    match resolve_output_ref s p with
    | None => a
    | Some (out_tx_id, out_vout) =>
        match get_content s (output_path out_tx_id out_vout) with
        | Some output_json => op a (json_get_int64 output_json "value")
        | None => a
        end
    end))|].
  apply fold_left_view. intros a p. unfold output_value.
  destruct (resolve_output_ref s p) as [[out_tx_id out_vout]|];
    [|reflexivity].
  now destruct (get_content s (output_path out_tx_id out_vout)).
Qed.

Lemma for_each_output_value (op : Z -> Z -> Z) :
  for_each_block_tx s (outputs_step s op)
  = fold_left op (output_values s) 0.
Proof.
  rewrite for_each_block_tx_ids. unfold output_values.
  apply fold_left_view. intros. apply outputs_step_values.
Qed.


End WithStore.

End LoopFacts.
Import LoopFacts.

(* ===================================================================== *)
(** ** The benchmark runner *)

Module RunnerFacts.

Lemma run_from_length (clk : Clock) (s : Store) (bs : list benchmark_t)
    (n : nat) :
  List.length (run_from clk s n bs) = List.length bs.
Proof. revert n. induction bs; intros n; simpl; auto. Qed.

(** The [i]-th pass of the loop reads the clock for the [2i]-th and the
    [2i+1]-th time. *)
Lemma run_from_nth (clk : Clock) (s : Store) (bs : list benchmark_t)
    (n i : nat) :
  nth_error (run_from clk s n bs) i
  = option_map (bench_line clk s (n + 2 * i)) (nth_error bs i).
Proof.
  revert n i. induction bs as [|b bs IH]; intros n i.
  - now destruct i.
  - destruct i as [|i]; simpl.
    + now rewrite Nat.add_0_r.
    + rewrite IH. do 2 f_equal. lia.
Qed.

Lemma benchmarks_table_order : benchmarks = map bench_of table_order.
Proof. reflexivity. Qed.

(** The scenario of the specification gives the results it expects. *)
Example scenario_output :
  main_output still_clock scenario
  = [ "Query,Time_ms,Result";
      "Block count,0.000,2"; "Tx count,0.000,3"; "Input count,0.000,11";
      "Output count,0.000,2"; "Address count,0.000,0";
      "Tx locktime > 0,0.000,1"; "Max output value,0.000,1000";
      "Calculate fee,0.000,2000000000"; "Total output value,0.000,1500";
      "Total fees,0.000,2000000150"; "Tx version > 1,0.000,1";
      "Avg tx per block,0.000,1500"; "Max tx per block,0.000,2";
      "Spent outputs,0.000,0"; "Unspent outputs,0.000,2";
      "High value tx,0.000,1"; "Multi-input tx,0.000,1" ].
Proof. vm_compute. reflexivity. Qed.

End RunnerFacts.
Import RunnerFacts.

(* ===================================================================== *)
(** ** Listings in another order *)

Module PermFacts.

(** An accumulation that does not depend on the order of two steps does
    not depend on the order of the list. *)
Lemma fold_left_perm {A E : Type} (f : A -> E -> A) (l l' : list E) :
  order_blind f -> Permutation l l' ->
  forall a, fold_left f l a = fold_left f l' a.
Proof.
  intros Hf H. induction H as [|x l l' _ IH|x y l|l l' l'' _ IH1 _ IH2];
    intros a; simpl.
  - reflexivity.
  - apply IH.
  - now rewrite Hf.
  - now rewrite IH1.
Qed.

Lemma fold_left_perm_same {A E : Type} (f g : A -> E -> A) (l l' : list E) :
  order_blind f -> (forall a x, g a x = f a x) -> Permutation l l' ->
  forall a, fold_left g l' a = fold_left f l a.
Proof.
  intros Hf Hg H a. rewrite (fold_left_same g f Hg).
  symmetry. now apply fold_left_perm.
Qed.

Lemma add64_order_blind : order_blind add64.
Proof.
  intros a x y. unfold add64. rewrite !to_int64_add_l. f_equal. ring.
Qed.

Lemma keep_max_order_blind : order_blind keep_max.
Proof. intros a x y. rewrite !keep_max_max. lia. Qed.

(** Folding over one list and then another, in either order. *)
Lemma fold_fold_order_blind {A E : Type} (f : A -> E -> A) :
  order_blind f ->
  forall l1 l2 a,
    fold_left f l2 (fold_left f l1 a) = fold_left f l1 (fold_left f l2 a).
Proof.
  intros Hf l1 l2 a. rewrite <- !fold_left_app.
  apply fold_left_perm; [assumption | apply Permutation_app_comm].
Qed.

Lemma Permutation_flat_map_pointwise {A B : Type} (f g : A -> list B)
    (l l' : list A) :
  (forall x, Permutation (f x) (g x)) -> Permutation l l' ->
  Permutation (flat_map f l) (flat_map g l').
Proof.
  intros Hfg H. transitivity (flat_map f l').
  - now apply Permutation_flat_map.
  - clear H. induction l' as [|x l' IH]; simpl.
    + constructor.
    + now apply Permutation_app.
Qed.

Lemma max_from_perm (a : Z) (l l' : list Z) :
  Permutation l l' -> max_from a l = max_from a l'.
Proof.
  intros H. rewrite <- !fold_keep_max.
  apply fold_left_perm; [apply keep_max_order_blind | assumption].
Qed.

Section Relist.

Variable s : Store.
Variable sigma : IrminPath s -> IrminPathArray s -> IrminPathArray s.
Hypothesis sigma_perm : forall p l, Permutation l (sigma p l).

Lemma get_content_relist (p : string) :
  get_content (relist s sigma) p = get_content s p.
Proof. reflexivity. Qed.

(** A directory has an array in one store when it has one in the other,
    and the two arrays hold the same paths. *)
Lemma list_path_relist (p : string) :
  match list_path s p with
  | None => list_path (relist s sigma) p = None
  | Some l =>
      exists l', list_path (relist s sigma) p = Some l' /\ Permutation l l'
  end.
Proof.
  unfold list_path, make_path. simpl.
  destruct (irmin_path_of_string s p) as [path|]; [|reflexivity].
  destruct (irmin_list s path) as [l|]; simpl; [|reflexivity].
  exists (sigma path l). split; [reflexivity | apply sigma_perm].
Qed.

Lemma listing_relist (p : string) :
  Permutation (listing s p) (listing (relist s sigma) p).
Proof.
  unfold listing. pose proof (list_path_relist p) as H.
  destruct (list_path s p) as [l|].
  - destruct H as (l' & -> & Hl).
    now apply (Permutation_flat_map (fun e => olist (entry_string s e))).
  - rewrite H. constructor.
Qed.

Lemma size_relist (p : string) : size (relist s sigma) p = size s p.
Proof.
  unfold size. pose proof (list_path_relist p) as H.
  destruct (list_path s p) as [l|].
  - destruct H as (l' & -> & Hl). unfold array_length64.
    now rewrite (Permutation_length Hl).
  - now rewrite H.
Qed.

Lemma find_last_block_height_relist :
  find_last_block_height (relist s sigma) = find_last_block_height s.
Proof.
  rewrite !find_last_block_height_max. symmetry. apply max_from_perm.
  unfold block_heights.
  apply Permutation_flat_map, listing_relist.
Qed.

Lemma tx_records_relist :
  Permutation (tx_records s) (tx_records (relist s sigma)).
Proof.
  unfold tx_records.
  apply (Permutation_flat_map (fun p => olist (get_content s p))),
    listing_relist.
Qed.

Lemma block_tx_ids_relist (height : Z) :
  Permutation (block_tx_ids s height) (block_tx_ids (relist s sigma) height).
Proof.
  unfold block_tx_ids.
  apply (Permutation_flat_map (fun p => olist (resolve_tx_id s p))),
    listing_relist.
Qed.

Lemma all_tx_ids_relist :
  Permutation (all_tx_ids s) (all_tx_ids (relist s sigma)).
Proof.
  unfold all_tx_ids. rewrite find_last_block_height_relist.
  apply Permutation_flat_map_pointwise; [|reflexivity].
  apply block_tx_ids_relist.
Qed.

Lemma tx_output_values_relist (tx_id : Z) :
  Permutation (tx_output_values s tx_id)
              (tx_output_values (relist s sigma) tx_id).
Proof.
  unfold tx_output_values.
  apply (Permutation_flat_map (output_value s)), listing_relist.
Qed.

(** *** The seventeen queries *)

Lemma for_each_tx_relist (body body' : Z -> string -> Z) :
  order_blind body -> (forall a x, body' a x = body a x) ->
  for_each_tx (relist s sigma) body' = for_each_tx s body.
Proof.
  intros Hb Hb'. rewrite !for_each_tx_records.
  apply fold_left_perm_same; auto using tx_records_relist.
Qed.

Lemma for_each_block_tx_relist (body body' : Z -> Z -> Z) :
  order_blind body -> (forall a x, body' a x = body a x) ->
  for_each_block_tx (relist s sigma) body' = for_each_block_tx s body.
Proof.
  intros Hb Hb'. rewrite !for_each_block_tx_ids.
  apply fold_left_perm_same; auto using all_tx_ids_relist.
Qed.

Lemma test_increment_order_blind {E : Type} (p : E -> bool) :
  order_blind (fun count x => if p x then add64 count 1 else count).
Proof.
  intros a x y. now destruct (p x), (p y).
Qed.

Lemma query_block_count_relist :
  query_block_count (relist s sigma) = query_block_count s.
Proof. apply (size_relist "block"). Qed.

Lemma query_tx_count_relist :
  query_tx_count (relist s sigma) = query_tx_count s.
Proof. apply (size_relist "tx"). Qed.

Lemma query_address_count_relist :
  query_address_count (relist s sigma) = query_address_count s.
Proof. apply (size_relist "address"). Qed.

Lemma add_size_order_blind {E : Type} (path_of : E -> string) :
  order_blind (fun count x =>
    match list_path s (path_of x) with
    | Some arr => add64 count (array_length64 arr)
    | None => count
    end).
Proof.
  intros a x y.
  destruct (list_path s (path_of x)), (list_path s (path_of y));
    try reflexivity.
  apply add64_order_blind.
Qed.

Lemma add_size_relist (path_str : string) (count : Z) :
  match list_path (relist s sigma) path_str with
  | Some arr => add64 count (array_length64 arr)
  | None => count
  end
  = match list_path s path_str with
    | Some arr => add64 count (array_length64 arr)
    | None => count
    end.
Proof.
  pose proof (list_path_relist path_str) as H.
  destruct (list_path s path_str) as [l|].
  - destruct H as (l' & -> & Hl). unfold array_length64.
    now rewrite (Permutation_length Hl).
  - now rewrite H.
Qed.

Lemma query_input_count_relist :
  query_input_count (relist s sigma) = query_input_count s.
Proof.
  apply for_each_block_tx_relist.
  - apply (add_size_order_blind tx_inputs_path).
  - intros a x. apply add_size_relist.
Qed.

Lemma query_output_count_relist :
  query_output_count (relist s sigma) = query_output_count s.
Proof.
  apply for_each_block_tx_relist.
  - apply (add_size_order_blind tx_outputs_path).
  - intros a x. apply add_size_relist.
Qed.

Lemma query_tx_locktime_gt_0_relist :
  query_tx_locktime_gt_0 (relist s sigma) = query_tx_locktime_gt_0 s.
Proof.
  apply for_each_tx_relist; [|reflexivity].
  apply (test_increment_order_blind
           (fun tx_json => 0 <? json_get_int64 tx_json "locktime")).
Qed.

Lemma query_tx_version_gt_1_relist :
  query_tx_version_gt_1 (relist s sigma) = query_tx_version_gt_1 s.
Proof.
  apply for_each_tx_relist; [|reflexivity].
  apply (test_increment_order_blind
           (fun tx_json => 1 <? json_get_int tx_json "version")).
Qed.

Lemma outputs_step_order_blind (op : Z -> Z -> Z) :
  order_blind op -> order_blind (outputs_step s op).
Proof.
  intros Hop a x y. rewrite !outputs_step_values.
  now apply fold_fold_order_blind.
Qed.

Lemma outputs_step_relist (op : Z -> Z -> Z) (a tx_id : Z) :
  order_blind op ->
  outputs_step (relist s sigma) op a tx_id = outputs_step s op a tx_id.
Proof.
  intros Hop. rewrite !outputs_step_values. symmetry.
  apply fold_left_perm; [assumption | apply tx_output_values_relist].
Qed.

Lemma query_max_output_value_relist :
  query_max_output_value (relist s sigma) = query_max_output_value s.
Proof.
  apply for_each_block_tx_relist.
  - apply outputs_step_order_blind, keep_max_order_blind.
  - intros a x. apply outputs_step_relist, keep_max_order_blind.
Qed.

Lemma query_total_output_value_relist :
  query_total_output_value (relist s sigma) = query_total_output_value s.
Proof.
  apply for_each_block_tx_relist.
  - apply outputs_step_order_blind, add64_order_blind.
  - intros a x. apply outputs_step_relist, add64_order_blind.
Qed.

Lemma query_calculate_fee_relist :
  query_calculate_fee (relist s sigma) = query_calculate_fee s.
Proof.
  apply for_each_tx_relist; [|reflexivity].
  intros a x y. apply keep_max_order_blind.
Qed.

Lemma query_total_fees_relist :
  query_total_fees (relist s sigma) = query_total_fees s.
Proof.
  apply for_each_tx_relist; [|reflexivity].
  intros a x y. apply add64_order_blind.
Qed.

Lemma query_avg_tx_per_block_relist :
  query_avg_tx_per_block (relist s sigma) = query_avg_tx_per_block s.
Proof.
  unfold query_avg_tx_per_block.
  now rewrite query_block_count_relist, query_tx_count_relist.
Qed.

Lemma max_tx_step_relist (max_tx height : Z) :
  max_tx_step (relist s sigma) max_tx height = max_tx_step s max_tx height.
Proof.
  unfold max_tx_step.
  pose proof (list_path_relist (block_txs_path height)) as H.
  destruct (list_path s (block_txs_path height)) as [l|].
  - destruct H as (l' & -> & Hl). unfold array_length64.
    now rewrite (Permutation_length Hl).
  - now rewrite H.
Qed.

Lemma query_max_tx_per_block_relist :
  query_max_tx_per_block (relist s sigma) = query_max_tx_per_block s.
Proof.
  unfold query_max_tx_per_block. rewrite find_last_block_height_relist.
  destruct (find_last_block_height s <? 0); [reflexivity|].
  apply fold_left_same, max_tx_step_relist.
Qed.

Lemma query_spent_outputs_relist :
  query_spent_outputs (relist s sigma) = query_spent_outputs s.
Proof.
  assert (Hview : forall t : Store,
            query_spent_outputs t
            = fold_left (fun count p =>
                           match list_path t p with
                           | Some vouts => add64 count (array_length64 vouts)
                           | None => count
                           end) (listing t "index/spent_by") 0).
  { intros t. unfold query_spent_outputs, listing.
    destruct (list_path t "index/spent_by") as [spent|]; [|reflexivity].
    apply (fold_entries t (fun count p =>
             match list_path t p with
             | Some vouts => add64 count (array_length64 vouts)
             | None => count
             end)). }
  rewrite !Hview. apply fold_left_perm_same.
  - apply (add_size_order_blind (fun p => p)).
  - intros a x. apply add_size_relist.
  - apply listing_relist.
Qed.

Lemma query_unspent_outputs_relist :
  query_unspent_outputs (relist s sigma) = query_unspent_outputs s.
Proof.
  unfold query_unspent_outputs.
  now rewrite query_output_count_relist, query_spent_outputs_relist.
Qed.

Lemma query_high_value_tx_relist :
  query_high_value_tx (relist s sigma) = query_high_value_tx s.
Proof.
  apply for_each_tx_relist; [|reflexivity].
  apply (test_increment_order_blind
           (fun tx_json => 1000000000 <? json_get_int64 tx_json "fee")).
Qed.

Lemma multi_input_body_relist (count : Z) (tx_json : string) :
  multi_input_body (relist s sigma) count tx_json
  = multi_input_body s count tx_json.
Proof.
  unfold multi_input_body.
  pose proof (list_path_relist
                (tx_inputs_path (json_get_int tx_json "tx_id"))) as H.
  destruct (list_path s (tx_inputs_path (json_get_int tx_json "tx_id")))
    as [l|].
  - destruct H as (l' & -> & Hl). now rewrite (Permutation_length Hl).
  - now rewrite H.
Qed.

Lemma query_multi_input_tx_relist :
  query_multi_input_tx (relist s sigma) = query_multi_input_tx s.
Proof.
  apply for_each_tx_relist.
  - intros a x y. rewrite !multi_input_body_test.
    apply (test_increment_order_blind (has_many_inputs s)).
  - apply multi_input_body_relist.
Qed.

End Relist.

End PermFacts.
Import PermFacts.

(* ===================================================================== *)
(** ** The claims *)

(** C1 (as amended).  For every store, [find_last_block_height] returns
    the largest of -1 and the integer suffixes of the children of the
    [block] listing, so -1 when the listing is absent or empty; the suffix
    is what [atoi] makes of the text after the last ['/'], which is 0 when
    that text does not begin with a number. *)
Theorem find_last_block_height_spec (s : Store) :
  find_last_block_height s = max_from (-1) (block_heights s) /\
  (list_path s "block" = None \/ list_path s "block" = Some [] ->
   find_last_block_height s = -1) /\
  (forall dir seg, strrchr seg "/" = None ->
     final_segment (dir ++ "/" ++ seg) = Some seg) /\
  (forall seg, leading_number seg = false -> atoi seg = 0).
Proof.
  split; [apply find_last_block_height_max|].
  split; [|split].
  - unfold find_last_block_height. now intros [-> | ->].
  - apply final_segment_append.
  - apply atoi_no_number.
Qed.

(** Instance of C1 at the scenario of the specification. *)
Lemma find_last_block_height_spec_witness :
  find_last_block_height scenario = 1 /\
  final_segment ("block" ++ "/" ++ "12") = Some "12" /\
  atoi "x12" = 0.
Proof.
  destruct (find_last_block_height_spec scenario) as (Hmax & _ & Hseg & Hatoi).
  split; [rewrite Hmax; reflexivity|].
  split; [apply Hseg; reflexivity | apply Hatoi; reflexivity].
Defined.

(** C1, counterexample.  With the single child [block/-5] the largest
    integer suffix is -5, and [find_last_block_height] returns -1. *)
Lemma find_last_block_height_not_max :
  block_heights negative_height_store = [-5] /\
  find_last_block_height negative_height_store = -1 /\
  find_last_block_height negative_height_store
  <> max_or (-1) (block_heights negative_height_store).
Proof. repeat split. vm_compute. discriminate. Qed.

(** C2 (as amended).  For every record and every key of at most 252
    characters, [json_get_int64] returns 0 when the text ["key":] occurs
    nowhere in the record; otherwise it goes behind the first occurrence,
    skips the spaces and returns what [strtoll] reads there: 0 when no
    number follows, and for a decimal integer [z] followed by anything but
    a digit the value [z], saturated to 64 bits. *)
Theorem json_get_int64_spec (json key : string) :
  (String.length key <= 252)%nat ->
  ((forall pre post, json <> pre ++ pattern key ++ post) ->
   json_get_int64 json key = 0) /\
  (forall pre post,
     json = pre ++ pattern key ++ post ->
     (forall pre' post', json = pre' ++ pattern key ++ post' ->
        (String.length pre <= String.length pre')%nat) ->
     json_get_int64 json key = strtoll (skip_spaces post) /\
     (leading_number (skip_spaces post) = false ->
      json_get_int64 json key = 0) /\
     (forall n z rest,
        post = spaces n ++ fmt_d z ++ rest -> no_digit_ahead rest = true ->
        json_get_int64 json key = clamp64 z /\
        (in_int64 z -> json_get_int64 json key = z))).
Proof.
  intros Hlen. split; [now apply json_get_int64_absent|].
  intros pre post -> Hmin.
  rewrite (json_get_int64_found key pre post Hlen Hmin).
  split; [reflexivity|]. split; [apply strtoll_no_number|].
  intros n z rest -> Hrest.
  rewrite skip_spaces_fmt_d, strtoll_fmt_d by assumption.
  split; [reflexivity|].
  unfold in_int64, clamp64. intros Hz.
  destruct (Z.ltb_spec z LLONG_MIN); [lia|].
  destruct (Z.ltb_spec LLONG_MAX z); [lia | reflexivity].
Qed.

(** Instance of C2: the field [fee] of the record [{"fee": -12,"x":1}]. *)
Lemma json_get_int64_spec_witness :
  json_get_int64 (record [field "fee" " -12"; field "x" "1"]) "fee" = -12.
Proof.
  assert (Hlen : (String.length "fee" <= 252)%nat) by (simpl; lia).
  destruct (json_get_int64_spec
              (record [field "fee" " -12"; field "x" "1"]) "fee" Hlen)
    as [_ Hfound].
  destruct (Hfound "{" (" -12," ++ field "x" "1" ++ "}") eq_refl) as (_ & _ & Hz).
  - apply (strstr_is_first (pattern "fee") "{"). reflexivity.
  - destruct (Hz 1%nat (-12) ("," ++ field "x" "1" ++ "}") eq_refl eq_refl)
      as [_ Hexact].
    apply Hexact. unfold in_int64, LLONG_MIN, LLONG_MAX. lia.
Defined.

(** C2, counterexample.  With a key of 253 characters the pattern loses
    its colon in [search]: the record holds the quoted key followed by
    [7], the text ["key":] occurs nowhere in it, and [json_get_int64]
    returns 7. *)
Lemma json_get_int64_long_key :
  (forall pre post, long_key_record <> pre ++ pattern long_key ++ post) /\
  json_get_int64 long_key_record long_key = 7 /\
  json_get_int64 long_key_record long_key <> 0.
Proof.
  split; [|split].
  - apply strstr_none. vm_compute. reflexivity.
  - vm_compute. reflexivity.
  - vm_compute. discriminate.
Qed.

(** C3.  For every store, [query_avg_tx_per_block] is 0 when the block
    count is 0; when the block count is positive it is the product of the
    transaction count by 1000 (a 64-bit product) divided by the block
    count with truncation toward zero, which for a product in range is
    both the truncated and the floored quotient of [tx_count * 1000] by
    [block_count]. *)
Theorem query_avg_tx_per_block_spec (s : Store) :
  (query_block_count s = 0 -> query_avg_tx_per_block s = 0) /\
  (0 < query_block_count s ->
   query_avg_tx_per_block s
   = Z.quot (mul64 (query_tx_count s) 1000) (query_block_count s)) /\
  (0 < query_block_count s -> 0 <= query_tx_count s ->
   in_int64 (query_tx_count s * 1000) ->
   query_avg_tx_per_block s
   = Z.quot (query_tx_count s * 1000) (query_block_count s) /\
   query_avg_tx_per_block s
   = (query_tx_count s * 1000) / query_block_count s).
Proof.
  unfold query_avg_tx_per_block.
  destruct (Z.eqb_spec (query_block_count s) 0) as [E|E].
  - split; [reflexivity|]. split; intros; lia.
  - split; [intros; contradiction|].
    assert (Hquot : 0 < query_block_count s ->
              div64 (mul64 (query_tx_count s) 1000) (query_block_count s)
              = Z.quot (mul64 (query_tx_count s) 1000) (query_block_count s)).
    { intros Hb. unfold div64. apply to_int64_id, quot_in_int64.
      - apply to_int64_range.
      - assumption. }
    split; [assumption|].
    intros Hb Ht Hprod. rewrite (Hquot Hb).
    unfold mul64. rewrite (to_int64_id _ Hprod).
    split; [reflexivity|].
    apply Z.quot_div_nonneg; lia.
Qed.

(** Instance of C3 at the scenario of the specification: 3 transactions
    in 2 blocks. *)
Lemma query_avg_tx_per_block_spec_witness :
  query_avg_tx_per_block scenario = 3 * 1000 / 2.
Proof.
  destruct (query_avg_tx_per_block_spec scenario) as (_ & _ & H).
  destruct H as [_ H].
  - reflexivity.
  - vm_compute. discriminate.
  - vm_compute. split; discriminate.
  - exact H.
Defined.

(** C4.  For every store, [query_unspent_outputs] is the 64-bit
    difference of the output count and the spent-output count: whenever
    that difference fits 64 bits it is returned as it is, below 0 when
    more outputs are recorded spent than are indexed. *)
Theorem query_unspent_outputs_spec (s : Store) :
  query_unspent_outputs s
  = sub64 (query_output_count s) (query_spent_outputs s) /\
  (in_int64 (query_output_count s - query_spent_outputs s) ->
   query_unspent_outputs s = query_output_count s - query_spent_outputs s) /\
  (in_int64 (query_output_count s - query_spent_outputs s) ->
   query_output_count s < query_spent_outputs s ->
   query_unspent_outputs s < 0).
Proof.
  unfold query_unspent_outputs, sub64.
  split; [reflexivity|]. split.
  - apply to_int64_id.
  - intros H Hlt. rewrite (to_int64_id _ H). lia.
Qed.

(** Instance of C4: one output recorded spent, none indexed. *)
Lemma query_unspent_outputs_spec_witness :
  query_unspent_outputs overspent_store = 0 - 1 /\
  query_unspent_outputs overspent_store < 0.
Proof.
  destruct (query_unspent_outputs_spec overspent_store) as (_ & Hexact & Hneg).
  split.
  - apply Hexact. vm_compute. split; discriminate.
  - apply Hneg.
    + vm_compute. split; discriminate.
    + reflexivity.
Defined.

(** Ten inputs are not enough, eleven are. *)
Example query_multi_input_tx_10_11 :
  query_multi_input_tx (inputs_store 10) = 0 /\
  query_multi_input_tx (inputs_store 11) = 1.
Proof. split; reflexivity. Qed.

(** C6 (as amended).  For every store, [query_calculate_fee] returns the
    largest of 0 and the [fee] fields decoded from the contents of the
    transactions of the [tx] listing: no fee exceeds it, it is 0 or one of
    the fees, and it is 0 when no transaction has a content. *)
Theorem query_calculate_fee_spec (s : Store) :
  query_calculate_fee s = max_from 0 (tx_fees s) /\
  Forall (fun fee => fee <= query_calculate_fee s) (tx_fees s) /\
  (query_calculate_fee s = 0 \/ In (query_calculate_fee s) (tx_fees s)) /\
  (tx_records s = [] -> query_calculate_fee s = 0).
Proof.
  rewrite query_calculate_fee_max.
  split; [reflexivity|]. split; [apply max_from_bounds|].
  split; [apply max_from_In|].
  unfold tx_fees. now intros ->.
Qed.

(** Instance of C6 at the scenario of the specification. *)
Lemma query_calculate_fee_spec_witness :
  query_calculate_fee scenario = 2000000000 /\
  query_calculate_fee (mem_store [] []) = 0.
Proof.
  split.
  - destruct (query_calculate_fee_spec scenario) as [H _].
    rewrite H. reflexivity.
  - destruct (query_calculate_fee_spec (mem_store [] [])) as (_ & _ & _ & H).
    apply H. reflexivity.
Defined.

(** C6, counterexample.  With a single transaction of fee -5 the largest
    fee is -5, and [query_calculate_fee] returns 0. *)
Lemma query_calculate_fee_not_max :
  tx_fees negative_fee_store = [-5] /\
  query_calculate_fee negative_fee_store = 0 /\
  query_calculate_fee negative_fee_store
  <> max_or 0 (tx_fees negative_fee_store).
Proof. repeat split. vm_compute. discriminate. Qed.

(** C7 (as amended).  For every store and reference path,
    [resolve_tx_id] returns nothing when the path has no content, and the
    loop that asked goes on unchanged; with a content it returns the
    field [tx_id] decoded as a 64-bit integer and then converted to the
    32-bit [int], which is the decoded value itself when that value fits
    32 bits. *)
Theorem resolve_tx_id_spec (s : Store) (ref_path : string) :
  resolve_tx_id s ref_path
  = option_map (fun tx_ref => to_int (json_get_int64 tx_ref "tx_id"))
               (get_content s ref_path) /\
  (get_content s ref_path = None <-> resolve_tx_id s ref_path = None) /\
  (forall tx_ref,
     get_content s ref_path = Some tx_ref ->
     INT_MIN <= json_get_int64 tx_ref "tx_id" <= INT_MAX ->
     resolve_tx_id s ref_path = Some (json_get_int64 tx_ref "tx_id")) /\
  (forall body acc e,
     entry_string s e = Some ref_path -> get_content s ref_path = None ->
     block_tx_step s body acc e = acc).
Proof.
  unfold resolve_tx_id, json_get_int.
  split; [now destruct (get_content s ref_path)|].
  split; [destruct (get_content s ref_path); split; congruence|].
  split.
  - intros tx_ref -> Hrange. simpl. f_equal. now apply to_int_id.
  - intros body acc e He Hc. unfold block_tx_step, resolve_tx_id.
    now rewrite He, Hc.
Qed.

(** Instance of C7 at the scenario of the specification. *)
Lemma resolve_tx_id_spec_witness :
  resolve_tx_id scenario "index/block_txs/1/1" = Some 2 /\
  block_tx_step scenario (fun acc _ => acc + 1) 5 (Some "index/missing") = 5.
Proof.
  destruct (resolve_tx_id_spec scenario "index/block_txs/1/1")
    as (_ & _ & Hfit & _).
  destruct (resolve_tx_id_spec scenario "index/missing")
    as (_ & _ & _ & Hskip).
  split.
  - apply (Hfit (record [field "tx_id" "2"]) eq_refl).
    vm_compute. split; discriminate.
  - apply Hskip; reflexivity.
Defined.

(** C7, counterexample.  The reference [{"tx_id":4294967296}] decodes to
    4294967296 as a 64-bit integer, and [resolve_tx_id] returns 0. *)
Lemma resolve_tx_id_not_int64 :
  get_content wide_tx_id_store "index/block_txs/0/0" = Some wide_ref /\
  json_get_int64 wide_ref "tx_id" = 4294967296 /\
  resolve_tx_id wide_tx_id_store "index/block_txs/0/0" = Some 0 /\
  resolve_tx_id wide_tx_id_store "index/block_txs/0/0"
  <> option_map (fun tx_ref => json_get_int64 tx_ref "tx_id")
                (get_content wide_tx_id_store "index/block_txs/0/0").
Proof. repeat split. vm_compute. discriminate. Qed.

(** C9 (as amended).  Once the store is open, and when its last block
    height is below [INT_MAX] so that every query returns, the output is
    the header line [Query,Time_ms,Result] followed by exactly one line per
    metric, 17 lines in the order of the table [benchmarks]: Block count,
    Tx count,
    Input count, Output count, Address count, Tx locktime > 0, Max output
    value, Calculate fee, Total output value, Total fees, Tx version > 1,
    Avg tx per block, Max tx per block, Spent outputs, Unspent outputs,
    High value tx, Multi-input tx; the line of a row is its name, the
    elapsed time between the two clock readings around its query, and the
    integer the query returns, separated by commas.  The table holds the
    metrics of the catalog, each once. *)
Theorem main_output_spec (clk : Clock) (s : Store) :
  find_last_block_height s < INT_MAX ->
  main_output clk s = "Query,Time_ms,Result" :: lines_in table_order clk s /\
  List.length (main_output clk s) = 18%nat /\
  map name benchmarks
  = [ "Block count"; "Tx count"; "Input count"; "Output count";
      "Address count"; "Tx locktime > 0"; "Max output value";
      "Calculate fee"; "Total output value"; "Total fees";
      "Tx version > 1"; "Avg tx per block"; "Max tx per block";
      "Spent outputs"; "Unspent outputs"; "High value tx";
      "Multi-input tx" ] /\
  (forall i b,
     nth_error benchmarks i = Some b ->
     nth_error (main_output clk s) (S i)
     = Some (name b ++ ","
             ++ fmt_elapsed clk (get_time_ms clk (2 * i))
                                (get_time_ms clk (S (2 * i)))
             ++ "," ++ fmt_d (query b s))) /\
  Permutation table_order catalog_order.
Proof.
  intros _.
  split; [reflexivity|]. split; [reflexivity|]. split; [reflexivity|].
  split.
  - intros i b Hb. unfold main_output. cbn [nth_error].
    rewrite run_from_nth, Hb. reflexivity.
  - apply NoDup_Permutation.
    + unfold table_order. repeat constructor; simpl; intuition discriminate.
    + unfold catalog_order. repeat constructor; simpl; intuition discriminate.
    + intros m. split; intros _; destruct m; simpl;
        repeat (first [left; reflexivity | right]).
Qed.

(** Instance of C9 at the scenario of the specification: the third line
    after the header. *)
Lemma main_output_spec_witness :
  nth_error (main_output still_clock scenario) 3 = Some "Input count,0.000,11".
Proof.
  assert (Hlast : find_last_block_height scenario < INT_MAX)
    by (vm_compute; reflexivity).
  destruct (main_output_spec still_clock scenario Hlast)
    as (_ & _ & _ & Hline & _).
  apply (Hline 2%nat {| name := "Input count"; query := query_input_count |}).
  reflexivity.
Defined.

(** C9, counterexample.  In the scenario of the specification the third
    line after the header is that of Input count, where the order of the
    catalog has address_count; so the output is not the lines of the
    metrics in catalog order. *)
Lemma main_output_not_catalog_order :
  nth_error (main_output still_clock scenario) 3
  = Some "Input count,0.000,11" /\
  nth_error ("Query,Time_ms,Result" :: lines_in catalog_order still_clock scenario) 3
  = Some "Address count,0.000,0" /\
  main_output still_clock scenario
  <> "Query,Time_ms,Result" :: lines_in catalog_order still_clock scenario.
Proof.
  split; [reflexivity|]. split; [reflexivity|].
  intros H. apply (f_equal (fun l => nth_error l 3)) in H.
  vm_compute in H. discriminate.
Qed.



(** C8.  For every store, every rearrangement of the arrays that the
    listings return, and every metric of the table [benchmarks], the
    metric has the same result on the rearranged store: the order of a
    listing changes no count, sum or maximum. *)
Theorem benchmarks_order_blind (s : Store)
    (sigma : IrminPath s -> IrminPathArray s -> IrminPathArray s) :
  (forall p l, Permutation l (sigma p l)) ->
  forall b, In b benchmarks -> query b (relist s sigma) = query b s.
Proof.
  intros Hsigma b Hb. unfold benchmarks in Hb. simpl in Hb.
  repeat (destruct Hb as [<- | Hb];
          [simpl query;
           first [ now apply query_block_count_relist
                 | now apply query_tx_count_relist
                 | now apply query_input_count_relist
                 | now apply query_output_count_relist
                 | now apply query_address_count_relist
                 | now apply query_tx_locktime_gt_0_relist
                 | now apply query_max_output_value_relist
                 | now apply query_calculate_fee_relist
                 | now apply query_total_output_value_relist
                 | now apply query_total_fees_relist
                 | now apply query_tx_version_gt_1_relist
                 | now apply query_avg_tx_per_block_relist
                 | now apply query_max_tx_per_block_relist
                 | now apply query_spent_outputs_relist
                 | now apply query_unspent_outputs_relist
                 | now apply query_high_value_tx_relist
                 | now apply query_multi_input_tx_relist ]
          |]).
  contradiction.
Qed.

(** Instance of C8: the scenario of the specification with every
    listing reversed, for the sum of the output values. *)
Lemma benchmarks_order_blind_witness :
  query_total_output_value (relist scenario (fun _ l => rev l))
  = query_total_output_value scenario.
Proof.
  apply (benchmarks_order_blind scenario (fun _ l => rev l)
           (fun _ l => Permutation_rev l)
           {| name := "Total output value";
              query := query_total_output_value |}).
  simpl. do 8 right. left. reflexivity.
Defined.

(* ===================================================================== *)
(** ** The other queries as sums, counts and maxima *)

Module QueryFacts.

Lemma total_app (l1 l2 : list Z) : total (l1 ++ l2) = total l1 + total l2.
Proof. induction l1 as [|x l1 IH]; simpl; lia. Qed.

Lemma fold_add64_total (l : list Z) :
  fold_left add64 l 0 = to_int64 (total l).
Proof. now rewrite fold_add64 by apply in_int64_0. Qed.

Lemma clamp64_range (z : Z) : in_int64 (clamp64 z).
Proof.
  unfold clamp64, in_int64, LLONG_MIN, LLONG_MAX.
  destruct (Z.ltb_spec z (- 2 ^ 63)); [lia|].
  destruct (Z.ltb_spec (2 ^ 63 - 1) z); lia.
Qed.

Lemma to_int_range (z : Z) : INT_MIN <= to_int z <= INT_MAX.
Proof.
  unfold to_int, wrap, INT_MIN, INT_MAX.
  pose proof (Z.mod_pos_bound (z + 2 ^ (32 - 1)) (2 ^ 32) eq_refl).
  change (2 ^ (32 - 1)) with 2147483648 in *.
  change (2 ^ 32) with 4294967296 in *.
  change (2 ^ 31) with 2147483648.
  lia.
Qed.

Lemma json_get_int64_range (json key : string) :
  in_int64 (json_get_int64 json key).
Proof.
  unfold json_get_int64.
  destruct (strstr json _); [|apply in_int64_0].
  unfold strtoll.
  destruct (skip_isspace _) as [|c t]; [apply clamp64_range|].
  destruct (Ascii.eqb c "-"); [apply clamp64_range|].
  destruct (Ascii.eqb c "+"); apply clamp64_range.
Qed.

Lemma max_from_range (l : list Z) :
  Forall in_int64 l -> in_int64 (max_from 0 l).
Proof.
  intros H. destruct (max_from_In 0 l) as [-> | Hin].
  - apply in_int64_0.
  - rewrite Forall_forall in H. now apply H.
Qed.

Lemma total_le_max (l : list Z) :
  total l <= Z.of_nat (List.length l) * max_from 0 l.
Proof.
  induction l as [|x l IH]; [simpl; lia|].
  cbn [total fold_right max_from List.length].
  fold (total l). fold (max_from 0 l).
  pose proof (max_from_floor 0 l).
  rewrite Nat2Z.inj_succ. nia.
Qed.

Section WithStore.

Variable s : Store.

Lemma count_inputs_sizes (count tx_id : Z) :
  count_inputs s count tx_id
  = fold_left add64 (listing_sizes s (tx_inputs_path tx_id)) count.
Proof.
  unfold count_inputs, listing_sizes.
  now destruct (list_path s (tx_inputs_path tx_id)).
Qed.

Lemma count_outputs_sizes (count tx_id : Z) :
  count_outputs s count tx_id
  = fold_left add64 (listing_sizes s (tx_outputs_path tx_id)) count.
Proof.
  unfold count_outputs, listing_sizes.
  now destruct (list_path s (tx_outputs_path tx_id)).
Qed.

Lemma query_input_count_total :
  query_input_count s = to_int64 (total (input_sizes s)).
Proof.
  unfold query_input_count, input_sizes. rewrite for_each_block_tx_ids.
  rewrite (fold_left_view _ add64 _ count_inputs_sizes).
  apply fold_add64_total.
Qed.

Lemma query_output_count_total :
  query_output_count s = to_int64 (total (output_sizes s)).
Proof.
  unfold query_output_count, output_sizes. rewrite for_each_block_tx_ids.
  rewrite (fold_left_view _ add64 _ count_outputs_sizes).
  apply fold_add64_total.
Qed.

Lemma query_total_output_value_total :
  query_total_output_value s = to_int64 (total (output_values s)).
Proof.
  unfold query_total_output_value. rewrite for_each_output_value.
  apply fold_add64_total.
Qed.

Lemma query_total_fees_total :
  query_total_fees s = to_int64 (total (tx_fees s)).
Proof.
  unfold query_total_fees, tx_fees. rewrite for_each_tx_records.
  rewrite (fold_left_map_op add64). apply fold_add64_total.
Qed.

Lemma for_each_tx_count (p : string -> bool) :
  for_each_tx s (fun count tx_json =>
                   if p tx_json then add64 count 1 else count)
  = to_int64 (count_if p (tx_records s)).
Proof.
  rewrite for_each_tx_records. unfold count_if.
  now rewrite fold_count by apply in_int64_0.
Qed.

Lemma query_tx_locktime_gt_0_filter :
  query_tx_locktime_gt_0 s
  = to_int64 (count_if locktime_gt_0 (tx_records s)).
Proof. apply (for_each_tx_count locktime_gt_0). Qed.

Lemma query_tx_version_gt_1_filter :
  query_tx_version_gt_1 s
  = to_int64 (count_if version_gt_1 (tx_records s)).
Proof. apply (for_each_tx_count version_gt_1). Qed.

Lemma query_high_value_tx_filter :
  query_high_value_tx s
  = to_int64 (count_if fee_gt_threshold (tx_records s)).
Proof. apply (for_each_tx_count fee_gt_threshold). Qed.

Lemma max_tx_step_sizes (max_tx height : Z) :
  max_tx_step s max_tx height
  = fold_left keep_max (listing_sizes s (block_txs_path height)) max_tx.
Proof.
  unfold max_tx_step, listing_sizes.
  now destruct (list_path s (block_txs_path height)).
Qed.

Lemma query_max_tx_per_block_max :
  query_max_tx_per_block s = max_from 0 (block_tx_sizes s).
Proof.
  unfold query_max_tx_per_block, block_tx_sizes.
  destruct (Z.ltb_spec (find_last_block_height s) 0) as [H|H].
  - now rewrite heights_negative.
  - rewrite (fold_left_view _ keep_max _ max_tx_step_sizes).
    apply fold_keep_max.
Qed.

Lemma query_spent_outputs_total :
  query_spent_outputs s = to_int64 (total (spent_sizes s)).
Proof.
  unfold query_spent_outputs, spent_sizes, listing.
  destruct (list_path s "index/spent_by") as [spent|]; [|reflexivity].
  etransitivity; [apply (fold_entries s (fun count p =>
    match list_path s p with
    | Some vouts => add64 count (array_length64 vouts)
    | None => count
    end))|].
  rewrite (fold_left_view _ add64 (listing_sizes s)).
  - apply fold_add64_total.
  - intros a p. unfold listing_sizes. now destruct (list_path s p).
Qed.

Lemma all_tx_ids_no_block :
  find_last_block_height s < 0 -> all_tx_ids s = [].
Proof. intros H. unfold all_tx_ids. now rewrite heights_negative. Qed.

End WithStore.

End QueryFacts.
Import QueryFacts.

(* ===================================================================== *)
(** ** Further properties of the queries *)

(** X4.  [query_total_fees] is the sum modulo [2^64] of the [fee] fields
    of the transactions of the [tx] listing that have a content, exact
    when the sum fits 64 bits; it never exceeds the number of those
    transactions times [query_calculate_fee]. *)
Theorem query_total_fees_sum (s : Store) :
  query_total_fees s = to_int64 (total (tx_fees s)) /\
  (in_int64 (total (tx_fees s)) ->
   query_total_fees s = total (tx_fees s) /\
   query_total_fees s
   <= Z.of_nat (List.length (tx_records s)) * query_calculate_fee s).
Proof.
  rewrite query_total_fees_total, query_calculate_fee_max.
  split; [reflexivity|]. intros H. rewrite (to_int64_id _ H).
  split; [reflexivity|].
  pose proof (total_le_max (tx_fees s)) as L.
  unfold tx_fees in L at 2. now rewrite length_map in L.
Qed.

(** Instance of X4 at the scenario of the specification. *)
Lemma query_total_fees_sum_witness :
  query_total_fees scenario = 2000000150 /\
  query_total_fees scenario <= 3 * query_calculate_fee scenario.
Proof.
  destruct (query_total_fees_sum scenario) as [_ H].
  destruct H as [Hsum Hle].
  - vm_compute. split; discriminate.
  - split; [rewrite Hsum; reflexivity | exact Hle].
Defined.

(** X5.  [query_tx_locktime_gt_0] is the number of transaction contents
    whose [locktime] field decodes to a value above 0: a transaction
    whose record has no [locktime] field, or a [locktime] of 0 or below,
    is not counted. *)
Theorem query_tx_locktime_gt_0_count (s : Store) :
  query_tx_locktime_gt_0 s
  = to_int64 (count_if locktime_gt_0 (tx_records s)) /\
  (forall tx_json,
     (forall pre post, tx_json <> pre ++ pattern "locktime" ++ post) ->
     locktime_gt_0 tx_json = false) /\
  (forall tx_json,
     json_get_int64 tx_json "locktime" <= 0 -> locktime_gt_0 tx_json = false).
Proof.
  split; [apply query_tx_locktime_gt_0_filter|].
  split.
  - intros tx_json H. unfold locktime_gt_0.
    rewrite json_get_int64_absent; [reflexivity | simpl; lia | exact H].
  - intros tx_json H. unfold locktime_gt_0. apply Z.ltb_ge. exact H.
Qed.

(** Instance of X5: a [locktime] of -1 and a [locktime] of 1. *)
Lemma query_tx_locktime_gt_0_count_witness :
  query_tx_locktime_gt_0 threshold_store = 1 /\
  locktime_gt_0 (record [field "fee" "5"]) = false.
Proof.
  destruct (query_tx_locktime_gt_0_count threshold_store) as (H & Habs & _).
  split; [rewrite H; reflexivity|].
  apply Habs. apply strstr_none. reflexivity.
Defined.

(** X6.  [query_tx_version_gt_1] is the number of transaction contents
    whose [version] field, decoded to 64 bits and converted to the 32-bit
    [int], is above 1: a version that fits 32 bits counts when it is above
    1, and a record without the field does not count. *)
Theorem query_tx_version_gt_1_count (s : Store) :
  query_tx_version_gt_1 s
  = to_int64 (count_if version_gt_1 (tx_records s)) /\
  (forall tx_json,
     INT_MIN <= json_get_int64 tx_json "version" <= INT_MAX ->
     (version_gt_1 tx_json = true <-> 1 < json_get_int64 tx_json "version")) /\
  (forall tx_json,
     (forall pre post, tx_json <> pre ++ pattern "version" ++ post) ->
     version_gt_1 tx_json = false).
Proof.
  split; [apply query_tx_version_gt_1_filter|].
  split.
  - intros tx_json H. unfold version_gt_1, json_get_int.
    rewrite (to_int_id _ H). apply Z.ltb_lt.
  - intros tx_json H. unfold version_gt_1, json_get_int.
    rewrite json_get_int64_absent; [reflexivity | simpl; lia | exact H].
Qed.

(** Instance of X6 at the scenario of the specification. *)
Lemma query_tx_version_gt_1_count_witness :
  query_tx_version_gt_1 scenario = 1 /\
  version_gt_1 (record [field "version" "2"]) = true /\
  version_gt_1 (record [field "fee" "5"]) = false.
Proof.
  destruct (query_tx_version_gt_1_count scenario) as (H & Hfit & Habs).
  split; [rewrite H; reflexivity|]. split.
  - apply Hfit; [vm_compute; split; discriminate | reflexivity].
  - apply Habs. apply strstr_none. reflexivity.
Defined.

(** X7.  [query_high_value_tx] is the number of transaction contents
    whose [fee] is strictly above 1000000000: a fee of exactly 1000000000
    is not counted. *)
Theorem query_high_value_tx_count (s : Store) :
  query_high_value_tx s
  = to_int64 (count_if fee_gt_threshold (tx_records s)) /\
  (forall tx_json,
     fee_gt_threshold tx_json = true
     <-> 1000000000 < json_get_int64 tx_json "fee") /\
  (forall tx_json,
     json_get_int64 tx_json "fee" = 1000000000 ->
     fee_gt_threshold tx_json = false).
Proof.
  split; [apply query_high_value_tx_filter|].
  split.
  - intros tx_json. apply Z.ltb_lt.
  - intros tx_json H. unfold fee_gt_threshold. now rewrite H.
Qed.

(** Instance of X7: fees of 1000000000 and 1000000001. *)
Lemma query_high_value_tx_count_witness :
  query_high_value_tx threshold_store = 1 /\
  fee_gt_threshold (record [field "fee" "1000000000"]) = false.
Proof.
  destruct (query_high_value_tx_count threshold_store) as (H & _ & Heq).
  split; [rewrite H; reflexivity|].
  apply Heq. reflexivity.
Defined.

(** X9.  [query_spent_outputs] is the 64-bit sum of the lengths of the
    listings of the children of [index/spent_by] (a child without a
    listing adds nothing), exact when the sum fits 64 bits. *)
Theorem query_spent_outputs_sum (s : Store) :
  query_spent_outputs s = to_int64 (total (spent_sizes s)) /\
  (in_int64 (total (spent_sizes s)) ->
   query_spent_outputs s = total (spent_sizes s)).
Proof.
  rewrite query_spent_outputs_total.
  split; [reflexivity | apply to_int64_id].
Qed.

(** Instance of X9: one transaction with one spent output. *)
Lemma query_spent_outputs_sum_witness :
  spent_sizes overspent_store = [1] /\ query_spent_outputs overspent_store = 1.
Proof.
  split; [reflexivity|].
  destruct (query_spent_outputs_sum overspent_store) as [_ H].
  rewrite H; [reflexivity|]. vm_compute. split; discriminate.
Defined.

(** X10.  Adding the spent outputs back to [query_unspent_outputs]
    gives [query_output_count] again, in 64-bit arithmetic, whatever the
    two counts are. *)
Theorem unspent_plus_spent (s : Store) :
  add64 (query_unspent_outputs s) (query_spent_outputs s)
  = query_output_count s.
Proof.
  unfold query_unspent_outputs, sub64, add64.
  rewrite to_int64_add_l.
  replace (query_output_count s - query_spent_outputs s
           + query_spent_outputs s) with (query_output_count s) by ring.
  rewrite query_output_count_total. apply to_int64_idem.
Qed.

(** X11.  When [query_high_value_tx] is not 0, [query_calculate_fee] is
    above 1000000000; and when [query_calculate_fee] is above 1000000000,
    some transaction of the [tx] listing has a fee above 1000000000. *)
Theorem high_value_tx_calculate_fee (s : Store) :
  (query_high_value_tx s <> 0 -> 1000000000 < query_calculate_fee s) /\
  (1000000000 < query_calculate_fee s ->
   exists tx_json,
     In tx_json (tx_records s) /\ fee_gt_threshold tx_json = true).
Proof.
  rewrite query_calculate_fee_max. split.
  - rewrite query_high_value_tx_filter. unfold count_if.
    destruct (filter fee_gt_threshold (tx_records s)) as [|tx_json l] eqn:E;
      [intros H; now elim H|].
    intros _.
    assert (Hin : In tx_json (filter fee_gt_threshold (tx_records s)))
      by (rewrite E; now left).
    apply filter_In in Hin. destruct Hin as [Hin Hfee].
    apply Z.ltb_lt in Hfee.
    pose proof (max_from_bounds 0 (tx_fees s)) as Hb.
    rewrite Forall_forall in Hb.
    specialize (Hb (json_get_int64 tx_json "fee")).
    assert (In (json_get_int64 tx_json "fee") (tx_fees s))
      by (unfold tx_fees; apply in_map_iff; now exists tx_json).
    specialize (Hb H). lia.
  - intros H. destruct (max_from_In 0 (tx_fees s)) as [E|Hin]; [lia|].
    unfold tx_fees in Hin at 2. apply in_map_iff in Hin.
    destruct Hin as (tx_json & Efee & Hin).
    exists tx_json. split; [assumption|].
    unfold fee_gt_threshold. apply Z.ltb_lt. fold (tx_fees s) in Efee.
    rewrite Efee. exact H.
Qed.

(** Instance of X11 at the scenario of the specification. *)
Lemma high_value_tx_calculate_fee_witness :
  1000000000 < query_calculate_fee scenario.
Proof.
  destruct (high_value_tx_calculate_fee scenario) as [H _].
  apply H. vm_compute. discriminate.
Defined.

(** X12.  When the [block] listing is absent or empty, the last height
    is -1 and every query that walks the blocks returns 0, whatever the
    index directories hold: input count, output count, maximum and total
    output value, maximum transactions per block, and the average per
    block. *)
Theorem no_block_all_zero (s : Store) :
  list_path s "block" = None \/ list_path s "block" = Some [] ->
  find_last_block_height s = -1 /\
  query_block_count s = 0 /\
  query_input_count s = 0 /\
  query_output_count s = 0 /\
  query_max_output_value s = 0 /\
  query_total_output_value s = 0 /\
  query_max_tx_per_block s = 0 /\
  query_avg_tx_per_block s = 0.
Proof.
  intros H.
  assert (Hlast : find_last_block_height s = -1)
    by (unfold find_last_block_height; now destruct H as [-> | ->]).
  assert (Hcount : query_block_count s = 0)
    by (unfold query_block_count; now destruct H as [-> | ->]).
  assert (Hneg : find_last_block_height s < 0) by lia.
  split; [assumption|]. split; [assumption|].
  unfold query_input_count, query_output_count, query_max_output_value,
    query_total_output_value, query_max_tx_per_block, for_each_block_tx,
    query_avg_tx_per_block.
  rewrite Hcount. apply Z.ltb_lt in Hneg. rewrite Hneg.
  repeat split.
Qed.

(** Instance of X12: the indices of a transaction without any block. *)
Lemma no_block_all_zero_witness :
  listing blockless_store "index/tx_inputs/1" <> [] /\
  query_input_count blockless_store = 0 /\
  query_total_output_value blockless_store = 0.
Proof.
  split; [vm_compute; discriminate|].
  destruct (no_block_all_zero blockless_store) as (_ & _ & Hin & _ & _ & Hout & _).
  - right. reflexivity.
  - split; assumption.
Defined.

(* ===================================================================== *)
(** ** Decimal text: what [%d] writes and what [atoi] reads back *)

Module CodecFacts.

Lemma append_empty_r (t : string) : t ++ "" = t.
Proof. induction t; simpl; congruence. Qed.

Lemma append_assoc (a b c : string) : (a ++ b) ++ c = a ++ b ++ c.
Proof. induction a; simpl; congruence. Qed.

Lemma append_cancel_l (p a b : string) : p ++ a = p ++ b -> a = b.
Proof. induction p; simpl; intros H; [assumption|]. injection H. auto. Qed.

Lemma clamp64_id (z : Z) : in_int64 z -> clamp64 z = z.
Proof.
  unfold in_int64, clamp64. intros H.
  destruct (Z.ltb_spec z LLONG_MIN); [lia|].
  destruct (Z.ltb_spec LLONG_MAX z); [lia | reflexivity].
Qed.

Lemma int_in_int64 (z : Z) : INT_MIN <= z <= INT_MAX -> in_int64 z.
Proof. unfold INT_MIN, INT_MAX, in_int64, LLONG_MIN, LLONG_MAX. lia. Qed.

Lemma strtoll_fmt_d_exact (z : Z) (rest : string) :
  in_int64 z -> no_digit_ahead rest = true -> strtoll (fmt_d z ++ rest) = z.
Proof.
  intros Hz Hrest. rewrite strtoll_fmt_d by assumption. now apply clamp64_id.
Qed.

Lemma atoi_fmt_d (z : Z) (rest : string) :
  INT_MIN <= z <= INT_MAX -> no_digit_ahead rest = true ->
  atoi (fmt_d z ++ rest) = z.
Proof.
  intros Hz Hrest. unfold atoi.
  rewrite strtoll_fmt_d_exact; auto using int_in_int64.
  now apply to_int_id.
Qed.

Lemma fmt_d_inj (a b : Z) :
  in_int64 a -> in_int64 b -> fmt_d a = fmt_d b -> a = b.
Proof.
  intros Ha Hb H.
  rewrite <- (strtoll_fmt_d_exact a "" Ha eq_refl).
  rewrite <- (strtoll_fmt_d_exact b "" Hb eq_refl).
  now rewrite H.
Qed.

(** *** No separator in a number *)

Lemma uint_all_digits (d : Decimal.uint) :
  all_digits (NilEmpty.string_of_uint d) = true.
Proof. induction d; simpl; auto. Qed.

Lemma all_digits_no_slash (t : string) :
  all_digits t = true -> strrchr t "/" = None.
Proof.
  induction t as [|c t IH]; simpl; [reflexivity|].
  destruct (digit_val c) eqn:E; [|discriminate].
  intros H. rewrite (IH H).
  destruct (Ascii.eqb_spec c "/") as [->|]; [discriminate | reflexivity].
Qed.

Lemma nilzero_all_digits (d : Decimal.uint) :
  all_digits (NilZero.string_of_uint d) = true.
Proof.
  destruct d; try reflexivity; apply (uint_all_digits (_ d)).
Qed.

Lemma fmt_d_no_slash (z : Z) : strrchr (fmt_d z) "/" = None.
Proof.
  unfold fmt_d. destruct (Z.to_int z) as [d|d]; simpl NilZero.string_of_int.
  - apply all_digits_no_slash, nilzero_all_digits.
  - simpl. now rewrite (all_digits_no_slash _ (nilzero_all_digits d)).
Qed.

(** *** The length of a number *)

Lemma uint_length (d : Decimal.uint) :
  String.length (NilEmpty.string_of_uint d) = Decimal.nb_digits d.
Proof. induction d; simpl; congruence. Qed.

Lemma usize_nb_digits (d : Decimal.uint) :
  DecimalPos.Unsigned.usize d = N.of_nat (Decimal.nb_digits d).
Proof.
  induction d; simpl Decimal.nb_digits; simpl DecimalPos.Unsigned.usize;
    [reflexivity | ..]; rewrite IHd; lia.
Qed.

Lemma to_uint_head (p : positive) :
  Decimal.nzhead (Pos.to_uint p) = Pos.to_uint p.
Proof.
  pose proof (DecimalPos.Unsigned.to_of (Pos.to_uint p)) as H.
  rewrite DecimalPos.Unsigned.of_to in H. simpl in H.
  pose proof (DecimalPos.Unsigned.to_uint_nonzero p) as Hnz.
  destruct (Decimal.uint_eq_dec (Decimal.nzhead (Pos.to_uint p)) Decimal.Nil)
    as [E|E].
  - apply DecimalFacts.unorm_0 in E. congruence.
  - rewrite <- (DecimalFacts.unorm_nzhead _ E). congruence.
Qed.

(** A number written without leading zero is at least the power of ten
    of its digits but one. *)
Lemma of_lu_rev_lower (d : Decimal.uint) :
  Decimal.nzhead d = d -> d <> Decimal.Nil ->
  (10 ^ (DecimalPos.Unsigned.usize d - 1)
   <= DecimalPos.Unsigned.of_lu (Decimal.rev d))%N.
Proof.
  intros Hhead Hnil.
  destruct d; [congruence | exfalso; eapply DecimalFacts.nzhead_nonzero;
                            simpl in Hhead; exact Hhead | ..];
    match goal with
    | |- context [Decimal.rev (?D d)] =>
        change (Decimal.rev (D d)) with (Decimal.revapp d (D Decimal.Nil));
        rewrite (DecimalPos.Unsigned.of_lu_revapp d (D Decimal.Nil))
    end;
    simpl DecimalPos.Unsigned.usize; simpl DecimalPos.Unsigned.of_lu;
    rewrite N.sub_1_r, N.pred_succ;
    pose proof (N.pow_nonzero 10 (DecimalPos.Unsigned.usize d)) as Hp;
    nia.
Qed.

Lemma pos_digits (p : positive) :
  (Npos p < 10 ^ 10)%N -> (Decimal.nb_digits (Pos.to_uint p) <= 10)%nat.
Proof.
  intros Hp.
  pose proof (of_lu_rev_lower (Pos.to_uint p) (to_uint_head p)
                (DecimalPos.Unsigned.to_uint_nonnil p)) as Hlow.
  rewrite <- DecimalPos.Unsigned.of_uint_alt, DecimalPos.Unsigned.of_to in Hlow.
  assert (Hlt : (10 ^ (DecimalPos.Unsigned.usize (Pos.to_uint p) - 1)
                 < 10 ^ 10)%N) by lia.
  apply N.pow_lt_mono_r_iff in Hlt; [|lia].
  rewrite usize_nb_digits in Hlt. lia.
Qed.

Lemma nilzero_length (d : Decimal.uint) :
  d <> Decimal.Nil ->
  String.length (NilZero.string_of_uint d) = Decimal.nb_digits d.
Proof.
  intros H. replace (NilZero.string_of_uint d) with (NilEmpty.string_of_uint d)
    by (destruct d; try reflexivity; congruence).
  apply uint_length.
Qed.

(** An [int] takes at most 11 characters. *)
Lemma fmt_d_length (z : Z) :
  INT_MIN <= z <= INT_MAX -> (String.length (fmt_d z) <= 11)%nat.
Proof.
  unfold INT_MIN, INT_MAX, fmt_d. intros Hz.
  destruct z as [|p|p]; simpl Z.to_int; simpl NilZero.string_of_int.
  - simpl. lia.
  - rewrite nilzero_length by apply DecimalPos.Unsigned.to_uint_nonnil.
    assert (Decimal.nb_digits (Pos.to_uint p) <= 10)%nat
      by (apply pos_digits; lia).
    lia.
  - simpl String.length.
    rewrite nilzero_length by apply DecimalPos.Unsigned.to_uint_nonnil.
    assert (Decimal.nb_digits (Pos.to_uint p) <= 10)%nat
      by (apply pos_digits; lia).
    lia.
Qed.

End CodecFacts.
Import CodecFacts.

(* ===================================================================== *)
(** ** Counts against the length of the listing *)

Module BoundFacts.

Lemma flat_map_olist_length {A B : Type} (f : A -> option B) (l : list A) :
  (List.length (flat_map (fun x => olist (f x)) l) <= List.length l)%nat.
Proof.
  induction l as [|x l IH]; simpl; [lia|].
  rewrite length_app. destruct (f x); simpl; lia.
Qed.

Lemma filter_length_le {A : Type} (p : A -> bool) (l : list A) :
  (List.length (filter p l) <= List.length l)%nat.
Proof.
  induction l as [|x l IH]; simpl; [lia|]. destruct (p x); simpl; lia.
Qed.

Lemma tx_records_length (s : Store) (txs : IrminPathArray s) :
  list_path s "tx" = Some txs ->
  (List.length (tx_records s) <= List.length txs)%nat.
Proof.
  intros H. unfold tx_records, listing. rewrite H.
  etransitivity; [apply flat_map_olist_length|].
  apply (flat_map_olist_length (entry_string s)).
Qed.

Lemma count_if_bounded (s : Store) (txs : IrminPathArray s)
    (p : string -> bool) :
  list_path s "tx" = Some txs ->
  Z.of_nat (List.length txs) <= LLONG_MAX ->
  0 <= to_int64 (count_if p (tx_records s)) <= query_tx_count s.
Proof.
  intros H Hlen. unfold query_tx_count, array_length64. rewrite H.
  pose proof (tx_records_length s txs H) as L1.
  pose proof (filter_length_le p (tx_records s)) as L2.
  unfold count_if.
  rewrite !to_int64_id; unfold in_int64, LLONG_MIN, LLONG_MAX in *; lia.
Qed.

End BoundFacts.
Import BoundFacts.

(** X13.  When the [tx] listing has fewer than [2^63] entries, each of
    the four counting queries over it (locktime above 0, version above 1,
    high value, multi-input) returns a count between 0 and
    [query_tx_count]. *)
Theorem counting_queries_bounded (s : Store) (txs : IrminPathArray s) :
  list_path s "tx" = Some txs ->
  Z.of_nat (List.length txs) <= LLONG_MAX ->
  0 <= query_tx_locktime_gt_0 s <= query_tx_count s /\
  0 <= query_tx_version_gt_1 s <= query_tx_count s /\
  0 <= query_high_value_tx s <= query_tx_count s /\
  0 <= query_multi_input_tx s <= query_tx_count s.
Proof.
  intros H Hlen.
  rewrite query_tx_locktime_gt_0_filter, query_tx_version_gt_1_filter,
    query_high_value_tx_filter, query_multi_input_tx_count.
  fold (count_if (has_many_inputs s) (tx_records s)).
  repeat split; eapply count_if_bounded; eassumption.
Qed.

(** Instance of X13 at the scenario of the specification. *)
Lemma counting_queries_bounded_witness :
  0 <= query_multi_input_tx scenario <= query_tx_count scenario.
Proof.
  destruct (counting_queries_bounded scenario
              (map Some ["tx/0"; "tx/1"; "tx/2"]) eq_refl) as (_ & _ & _ & H).
  - vm_compute. discriminate.
  - exact H.
Defined.

(** X14.  Whatever the record and the key, [json_get_int64] returns a
    value within the 64-bit range and [json_get_int] a value within the
    32-bit range. *)
Theorem json_get_int_ranges (json key : string) :
  in_int64 (json_get_int64 json key) /\
  INT_MIN <= json_get_int json key <= INT_MAX.
Proof.
  split; [apply json_get_int64_range | apply to_int_range].
Qed.

(** X15.  For a key of at most 252 characters, a record that opens with
    the field ["key":] followed by spaces and a decimal integer [z]
    decodes to [z] saturated to 64 bits, whatever follows the integer
    (another field, a second field of the same key, or text that is no
    JSON): [z] itself within the 64-bit range, [LLONG_MAX] above it and
    [LLONG_MIN] below it. *)
Theorem json_get_int64_first_field (key : string) (n : nat) (z : Z)
    (rest : string) :
  (String.length key <= 252)%nat ->
  no_digit_ahead rest = true ->
  json_get_int64 ("{" ++ pattern key ++ spaces n ++ fmt_d z ++ rest) key
  = clamp64 z /\
  (in_int64 z -> clamp64 z = z) /\
  (LLONG_MAX < z -> clamp64 z = LLONG_MAX) /\
  (z < LLONG_MIN -> clamp64 z = LLONG_MIN).
Proof.
  intros Hlen Hrest. split.
  - rewrite (json_get_int64_found key "{" (spaces n ++ fmt_d z ++ rest) Hlen).
    + now rewrite skip_spaces_fmt_d, strtoll_fmt_d.
    + intros pre' post' H. destruct pre' as [|c pre']; [|simpl; lia].
      unfold pattern in H. simpl in H. discriminate.
  - split; [apply clamp64_id|].
    unfold clamp64, LLONG_MIN, LLONG_MAX. split; intros H.
    + destruct (Z.ltb_spec z (- 2 ^ 63)); [lia|].
      destruct (Z.ltb_spec (2 ^ 63 - 1) z); [reflexivity | lia].
    + destruct (Z.ltb_spec z (- 2 ^ 63)); [reflexivity | lia].
Qed.

(** Instance of X15: the same key twice, and a number above the 64-bit
    range. *)
Lemma json_get_int64_first_field_witness :
  json_get_int64 (record [field "fee" "7"; field "fee" "8"]) "fee" = 7 /\
  json_get_int64 (record [field "fee" "9223372036854775808"]) "fee"
  = 9223372036854775807.
Proof.
  split.
  - destruct (json_get_int64_first_field "fee" 0 7
                ("," ++ field "fee" "8" ++ "}")) as [H _].
    + simpl. lia.
    + reflexivity.
    + exact H.
  - destruct (json_get_int64_first_field "fee" 0 9223372036854775808 "}")
      as [H _].
    + simpl. lia.
    + reflexivity.
    + exact H.
Defined.

(** X16.  A height written with [%d] after [block/] is read back by
    [find_last_block_height]: when the children of the [block] listing
    are the paths [block/<h>] for the 32-bit integers [h] of a list, their
    decoded suffixes are that list and the result is the largest of -1
    and its elements. *)
Theorem block_heights_round_trip (s : Store) (hs : list Z) :
  listing s "block" = map (fun h => "block/" ++ fmt_d h) hs ->
  Forall (fun h => INT_MIN <= h <= INT_MAX) hs ->
  block_heights s = hs /\ find_last_block_height s = max_from (-1) hs.
Proof.
  intros Hl Hr.
  assert (E : block_heights s = hs).
  { assert (Hseg : forall h,
              final_segment ("block/" ++ fmt_d h) = Some (fmt_d h))
      by (intros h; apply (final_segment_append "block"), fmt_d_no_slash).
    unfold block_heights. rewrite Hl. clear Hl.
    induction Hr as [|h hs Hh _ IH]; [reflexivity|].
    cbn [map flat_map]. rewrite Hseg, IH. cbn [option_map olist app].
    f_equal. rewrite <- (append_empty_r (fmt_d h)). now apply atoi_fmt_d. }
  split; [assumption|].
  now rewrite find_last_block_height_max, E.
Qed.

(** Instance of X16 at the scenario of the specification. *)
Lemma block_heights_round_trip_witness :
  find_last_block_height scenario = max_from (-1) [0; 1].
Proof.
  destruct (block_heights_round_trip scenario [0; 1]) as [_ H].
  - reflexivity.
  - repeat constructor; vm_compute; discriminate.
  - exact H.
Defined.

(** X17.  For 32-bit identifiers the paths the queries format are never
    cut by their 256-byte buffers, and two different identifiers never
    give the same path: the directory of a block, of the inputs and of
    the outputs of a transaction, and the path of an output. *)
Theorem paths_exact_and_distinct (a b c d : Z) :
  INT_MIN <= a <= INT_MAX -> INT_MIN <= b <= INT_MAX ->
  INT_MIN <= c <= INT_MAX -> INT_MIN <= d <= INT_MAX ->
  block_txs_path a = "index/block_txs/" ++ fmt_d a /\
  tx_inputs_path a = "index/tx_inputs/" ++ fmt_d a /\
  tx_outputs_path a = "index/tx_outputs/" ++ fmt_d a /\
  output_path a b = "output/" ++ fmt_d a ++ "/" ++ fmt_d b /\
  (block_txs_path a = block_txs_path c -> a = c) /\
  (tx_inputs_path a = tx_inputs_path c -> a = c) /\
  (tx_outputs_path a = tx_outputs_path c -> a = c) /\
  (output_path a b = output_path c d -> a = c /\ b = d).
Proof.
  intros Ha Hb Hc Hd.
  pose proof (fmt_d_length a Ha) as La. pose proof (fmt_d_length b Hb) as Lb.
  pose proof (fmt_d_length c Hc) as Lc. pose proof (fmt_d_length d Hd) as Ld.
  assert (Hfit : forall pre z, INT_MIN <= z <= INT_MAX ->
            (String.length pre <= 40)%nat ->
            snprintf 256 (pre ++ fmt_d z) = pre ++ fmt_d z).
  { intros pre z Hz Hpre. unfold snprintf. apply substring_all.
    rewrite length_append. pose proof (fmt_d_length z Hz). simpl. lia. }
  assert (Hout : forall x y, INT_MIN <= x <= INT_MAX ->
            INT_MIN <= y <= INT_MAX ->
            output_path x y = "output/" ++ fmt_d x ++ "/" ++ fmt_d y).
  { intros x y Hx Hy. unfold output_path, snprintf. apply substring_all.
    rewrite !length_append.
    pose proof (fmt_d_length x Hx). pose proof (fmt_d_length y Hy).
    simpl. lia. }
  unfold block_txs_path, tx_inputs_path, tx_outputs_path.
  rewrite !Hfit, !Hout by (assumption || (simpl; lia)).
  do 4 (split; [reflexivity|]).
  split; [|split; [|split]].
  - intros H. apply append_cancel_l in H.
    apply fmt_d_inj in H; auto using int_in_int64.
  - intros H. apply append_cancel_l in H.
    apply fmt_d_inj in H; auto using int_in_int64.
  - intros H. apply append_cancel_l in H.
    apply fmt_d_inj in H; auto using int_in_int64.
  - intros H. apply append_cancel_l in H.
    assert (E : a = c).
    { apply (f_equal strtoll) in H.
      rewrite !strtoll_fmt_d_exact in H; auto using int_in_int64. }
    subst c. split; [reflexivity|].
    apply append_cancel_l in H. apply (append_cancel_l "/") in H.
    apply fmt_d_inj in H; auto using int_in_int64.
Qed.

(** Instance of X17: the outputs 1/23 and 12/3. *)
Lemma paths_exact_and_distinct_witness :
  output_path 1 23 = "output/1/23" /\ output_path 12 3 = "output/12/3".
Proof.
  assert (R : forall z, 0 <= z <= 23 -> INT_MIN <= z <= INT_MAX)
    by (unfold INT_MIN, INT_MAX; lia).
  destruct (paths_exact_and_distinct 1 23 12 3) as (_ & _ & _ & H1 & _);
    try (apply R; lia).
  destruct (paths_exact_and_distinct 12 3 1 23) as (_ & _ & _ & H2 & _);
    try (apply R; lia).
  split; [exact H1 | exact H2].
Defined.

(* ===================================================================== *)
(** ** The two programs *)

Module ProcessFacts.

Lemma puts_all_spec (lines : list string) (w : World) :
  puts_all lines w
  = (tt, {| stdout := stdout w ++ lines;
            stderr := stderr w;
            events := events w |}).
Proof.
  revert w. induction lines as [|line lines IH]; intros w.
  - destruct w. simpl. now rewrite app_nil_r.
  - simpl. unfold bind. simpl. rewrite IH. simpl.
    now rewrite <- app_assoc.
Qed.

Lemma show_block_spec (s : Store) (path : IrminPath s) (w : World) :
  stdout (snd (QueryBlock.show_block s path w))
  = (stdout w ++ QueryBlock.block_lines s path)%list /\
  stderr (snd (QueryBlock.show_block s path w)) = stderr w /\
  exists held,
    events (snd (QueryBlock.show_block s path w)) = (events w ++ held)%list /\
    (held = []
     \/ held = [Acquire HContents; Release HContents]
     \/ held = [Acquire HContents; Acquire HValue;
                Release HValue; Release HContents]).
Proof.
  unfold QueryBlock.show_block, QueryBlock.block_lines.
  destruct (irmin_find s path) as [contents|].
  - destruct (irmin_contents_to_string s contents) as [value|]; simpl.
    + rewrite <- !app_assoc. split; [reflexivity|]. split; [reflexivity|].
      eexists. split; [reflexivity|]. right. right. reflexivity.
    + rewrite <- !app_assoc, app_nil_r. split; [reflexivity|].
      split; [reflexivity|].
      eexists. split; [reflexivity|]. right. left. reflexivity.
  - simpl. rewrite <- !app_assoc. split; [reflexivity|].
    split; [reflexivity|].
    exists []. split; [now rewrite app_nil_r | now left].
Qed.

End ProcessFacts.
Import ProcessFacts.

(** X18.  [main] of [benchmark.c].  When a step of the opening fails
    (configuration, root, repository, error reported by the repository,
    main store) it returns 1, having written exactly one line to standard
    error and nothing to standard output, so no query has run.  When every
    step succeeds, on a store whose last block height is below [INT_MAX]
    so that every query returns, it returns 0, having written nothing to
    standard error and, to standard output, the header followed by the
    lines of the benchmarks on the opened store.  The root is the second
    element of [argv] when there is one and [./local-store] otherwise. *)
Theorem benchmark_main_outcome (lib : Libirmin) (clk : Clock)
    (argv : list string) :
  (irmin_config_pack lib = false
   \/ irmin_config_set_root lib (store_path_of "./local-store" argv) = false
   \/ irmin_repo_new lib (store_path_of "./local-store" argv) = None
   \/ (exists repo err,
         irmin_repo_new lib (store_path_of "./local-store" argv) = Some repo
         /\ repo_error repo = Some err)
   \/ (exists repo,
         irmin_repo_new lib (store_path_of "./local-store" argv) = Some repo
         /\ repo_main repo = None) ->
   fst (BenchmarkMain.main lib clk argv start) = 1 /\
   stdout (snd (BenchmarkMain.main lib clk argv start)) = [] /\
   exists msg, stderr (snd (BenchmarkMain.main lib clk argv start)) = [msg])
  /\
  (forall repo s,
     irmin_config_pack lib = true ->
     irmin_config_set_root lib (store_path_of "./local-store" argv) = true ->
     irmin_repo_new lib (store_path_of "./local-store" argv) = Some repo ->
     repo_error repo = None ->
     repo_main repo = Some s ->
     find_last_block_height s < INT_MAX ->
     fst (BenchmarkMain.main lib clk argv start) = 0 /\
     stderr (snd (BenchmarkMain.main lib clk argv start)) = [] /\
     stdout (snd (BenchmarkMain.main lib clk argv start))
     = main_output clk s)
  /\
  (forall prog path more,
     store_path_of "./local-store" (prog :: path :: more) = path) /\
  (forall prog, store_path_of "./local-store" [prog] = "./local-store") /\
  store_path_of "./local-store" [] = "./local-store".
Proof.
  split; [|split; [|repeat split]].
  - unfold BenchmarkMain.main.
    set (store_path := store_path_of "./local-store" argv).
    intros Hfail.
    destruct (irmin_config_pack lib) eqn:Hc; simpl negb; cbv iota;
      [|simpl; eauto].
    destruct (irmin_config_set_root lib store_path) eqn:Hr; simpl negb;
      cbv iota; [|simpl; eauto].
    destruct (irmin_repo_new lib store_path) as [repo|] eqn:Hn;
      [|simpl; eauto].
    destruct (repo_error repo) as [err|] eqn:He; [simpl; eauto|].
    destruct (repo_main repo) as [s|] eqn:Hm; [|simpl; eauto].
    exfalso.
    destruct Hfail as [H | [H | [H | [(r & e & H & H') | (r & H & H')]]]];
      try discriminate;
      injection H as <-; congruence.
  - intros repo s Hc Hr Hn He Hm _. unfold BenchmarkMain.main.
    rewrite Hc, Hr, Hn, He, Hm. simpl negb. cbv iota.
    unfold bind. cbn -[run_from puts_all].
    rewrite puts_all_spec. simpl.
    repeat split.
Qed.

(** Instance of X18: a library that opens the scenario of the
    specification, and one whose repository reports an error. *)
Lemma benchmark_main_outcome_witness :
  fst (BenchmarkMain.main lib_ok still_clock [] start) = 0 /\
  stdout (snd (BenchmarkMain.main lib_ok still_clock [] start))
  = main_output still_clock scenario /\
  fst (BenchmarkMain.main lib_broken still_clock [] start) = 1 /\
  stdout (snd (BenchmarkMain.main lib_broken still_clock [] start)) = [].
Proof.
  destruct (benchmark_main_outcome lib_ok still_clock []) as (_ & Hok & _).
  destruct (benchmark_main_outcome lib_broken still_clock [])
    as (Hfail & _).
  destruct (Hok {| repo_error := None; repo_main := Some scenario |} scenario)
    as (H0 & _ & Hout); try reflexivity.
  destruct Hfail as (H1 & Herr & _).
  - right. right. right. left.
    exists {| repo_error := Some "no such store"; repo_main := None |},
      "no such store".
    split; reflexivity.
  - repeat split; assumption.
Defined.

(** X19.  On every path through [main] of [benchmark.c], each handle
    obtained from libirmin (configuration, repository, error string, main
    store) is freed exactly once before the return, and nothing is freed
    that was not obtained. *)
Theorem benchmark_main_balanced (lib : Libirmin) (clk : Clock)
    (argv : list string) :
  balanced (events (snd (BenchmarkMain.main lib clk argv start))) = true.
Proof.
  unfold BenchmarkMain.main.
  destruct (irmin_config_pack lib); simpl negb; cbv iota; [|reflexivity].
  destruct (irmin_config_set_root lib _); simpl negb; cbv iota;
    [|reflexivity].
  destruct (irmin_repo_new lib _) as [repo|]; [|reflexivity].
  destruct (repo_error repo) as [err|]; [reflexivity|].
  destruct (repo_main repo) as [s|]; [|reflexivity].
  unfold bind. cbn -[run_from puts_all].
  rewrite puts_all_spec. reflexivity.
Qed.


(** X21.  On every path through [main] of [query_block.c], each handle
    obtained from libirmin (configuration, repository, error string, main
    store, path, contents, string of the contents) is freed exactly once
    before the return, and nothing is freed that was not obtained. *)
Theorem query_block_main_balanced (lib : Libirmin) (argv : list string) :
  balanced (events (snd (QueryBlock.main lib argv start))) = true.
Proof.
  unfold QueryBlock.main.
  destruct (irmin_config_pack lib); simpl negb; cbv iota; [|reflexivity].
  destruct (irmin_config_set_root lib _); simpl negb; cbv iota;
    [|reflexivity].
  destruct (irmin_repo_new lib _) as [repo|]; [|reflexivity].
  destruct (repo_error repo) as [err|]; [reflexivity|].
  destruct (repo_main repo) as [s|]; [|reflexivity].
  destruct (irmin_path_of_string s "block/0") as [path|] eqn:Hp.
  2:{ reflexivity. }
  unfold bind. simpl.
  match goal with
  | |- context [QueryBlock.show_block s path ?w] =>
      pose proof (show_block_spec s path w) as (_ & _ & held & Hev & Hheld);
      destruct (QueryBlock.show_block s path w) as [u w']
  end.
  simpl in *. rewrite Hev.
  destruct Hheld as [-> | [-> | ->]]; reflexivity.
Qed.

(* ===================================================================== *)
(** ** The paths of the loops, and the range of what they decode *)

Module PathFacts.

Lemma snprintf_fits (t : string) :
  (String.length t <= 255)%nat -> snprintf 256 t = t.
Proof. intros H. unfold snprintf. now apply substring_all. Qed.

Lemma block_txs_path_exact (z : Z) :
  INT_MIN <= z <= INT_MAX -> block_txs_path z = "index/block_txs/" ++ fmt_d z.
Proof.
  intros Hz. unfold block_txs_path. apply snprintf_fits.
  rewrite length_append. pose proof (fmt_d_length z Hz). simpl. lia.
Qed.

Lemma tx_inputs_path_exact (z : Z) :
  INT_MIN <= z <= INT_MAX -> tx_inputs_path z = "index/tx_inputs/" ++ fmt_d z.
Proof.
  intros Hz. unfold tx_inputs_path. apply snprintf_fits.
  rewrite length_append. pose proof (fmt_d_length z Hz). simpl. lia.
Qed.

Lemma tx_outputs_path_exact (z : Z) :
  INT_MIN <= z <= INT_MAX ->
  tx_outputs_path z = "index/tx_outputs/" ++ fmt_d z.
Proof.
  intros Hz. unfold tx_outputs_path. apply snprintf_fits.
  rewrite length_append. pose proof (fmt_d_length z Hz). simpl. lia.
Qed.

Lemma output_path_exact (t v : Z) :
  INT_MIN <= t <= INT_MAX -> INT_MIN <= v <= INT_MAX ->
  output_path t v = "output/" ++ fmt_d t ++ "/" ++ fmt_d v.
Proof.
  intros Ht Hv. unfold output_path. apply snprintf_fits.
  rewrite !length_append.
  pose proof (fmt_d_length t Ht). pose proof (fmt_d_length v Hv).
  simpl. lia.
Qed.

Section WithStore.

Variable s : Store.

Lemma block_heights_int :
  Forall (fun h => INT_MIN <= h <= INT_MAX) (block_heights s).
Proof.
  apply Forall_forall. intros h Hin. unfold block_heights in Hin.
  apply in_flat_map in Hin. destruct Hin as (pstr & _ & Hin).
  destruct (final_segment pstr) as [seg|]; simpl in Hin; [|contradiction].
  destruct Hin as [<- | []]. apply to_int_range.
Qed.

Lemma find_last_block_height_range :
  -1 <= find_last_block_height s <= INT_MAX.
Proof.
  rewrite find_last_block_height_max. split; [apply max_from_floor|].
  destruct (max_from_In (-1) (block_heights s)) as [-> | Hin];
    [unfold INT_MAX; lia|].
  pose proof block_heights_int as H. rewrite Forall_forall in H.
  now apply H.
Qed.

Lemma heights_int :
  Forall (fun h => INT_MIN <= h <= INT_MAX)
         (heights (find_last_block_height s)).
Proof.
  pose proof find_last_block_height_range as Hr.
  apply Forall_forall. intros h Hin. unfold heights in Hin.
  apply in_map_iff in Hin. destruct Hin as (i & <- & Hi).
  apply in_seq in Hi. unfold INT_MIN. lia.
Qed.

Lemma all_tx_ids_int :
  Forall (fun tx_id => INT_MIN <= tx_id <= INT_MAX) (all_tx_ids s).
Proof.
  apply Forall_forall. intros tx_id Hin. unfold all_tx_ids in Hin.
  apply in_flat_map in Hin. destruct Hin as (h & _ & Hin).
  unfold block_tx_ids in Hin. apply in_flat_map in Hin.
  destruct Hin as (p & _ & Hin). unfold resolve_tx_id in Hin.
  destruct (get_content s p); simpl in Hin; [|contradiction].
  destruct Hin as [<- | []]. apply to_int_range.
Qed.

(** The test of [query_multi_input_tx] looks at the directory named
    after the [tx_id] as an [int]. *)
Lemma has_many_inputs_dir (tx_json : string) :
  has_many_inputs s tx_json = more_than_10_at s (int_inputs_dir tx_json).
Proof.
  unfold has_many_inputs, more_than_10_at, int_inputs_dir, json_get_int.
  now rewrite tx_inputs_path_exact by apply to_int_range.
Qed.

Lemma query_multi_input_tx_dir :
  query_multi_input_tx s
  = to_int64 (count_if (fun tx_json =>
                          more_than_10_at s (int_inputs_dir tx_json))
                       (tx_records s)).
Proof.
  rewrite query_multi_input_tx_count. unfold count_if. do 3 f_equal.
  apply filter_ext. intros. apply has_many_inputs_dir.
Qed.

End WithStore.

End PathFacts.
Import PathFacts.

(** C5 (as amended).  For every store, [query_multi_input_tx] is the
    number of transactions of the [tx] listing that have a content and for
    which the directory [index/tx_inputs/<n>], [n] being the [tx_id]
    decoded from that content and converted to the 32-bit [int], has a
    listing of strictly more than 10 entries; a listing of exactly 10
    entries, or none, does not count.  When the decoded [tx_id] fits 32
    bits that directory is [index/tx_inputs/<tx_id>]. *)
Theorem query_multi_input_tx_spec (s : Store) :
  query_multi_input_tx s
  = to_int64 (count_if (fun tx_json =>
                          more_than_10_at s (int_inputs_dir tx_json))
                       (tx_records s)) /\
  (forall dir inputs,
     list_path s dir = Some inputs ->
     (more_than_10_at s dir = true <-> (10 < List.length inputs)%nat) /\
     (List.length inputs = 10%nat -> more_than_10_at s dir = false)) /\
  (forall dir, list_path s dir = None -> more_than_10_at s dir = false) /\
  (forall tx_json,
     INT_MIN <= json_get_int64 tx_json "tx_id" <= INT_MAX ->
     int_inputs_dir tx_json = decoded_inputs_dir tx_json).
Proof.
  split; [apply query_multi_input_tx_dir|].
  split; [|split].
  - intros dir inputs H. unfold more_than_10_at. rewrite H.
    split; [apply Nat.ltb_lt|].
    intros ->. reflexivity.
  - intros dir H. unfold more_than_10_at. now rewrite H.
  - intros tx_json H. unfold int_inputs_dir, decoded_inputs_dir.
    now rewrite to_int_id.
Qed.

(** Instance of C5: a transaction with eleven inputs indexed is counted,
    one with exactly ten is not. *)
Lemma query_multi_input_tx_spec_witness :
  query_multi_input_tx (inputs_store 11) = 1 /\
  more_than_10_at (inputs_store 11) "index/tx_inputs/7" = true /\
  query_multi_input_tx (inputs_store 10) = 0 /\
  more_than_10_at (inputs_store 10) "index/tx_inputs/7" = false /\
  int_inputs_dir (record [field "tx_id" "7"; field "fee" "1"])
  = "index/tx_inputs/7".
Proof.
  destruct (query_multi_input_tx_spec (inputs_store 11))
    as (Hcount11 & Hsome11 & _ & Hdir).
  destruct (query_multi_input_tx_spec (inputs_store 10))
    as (Hcount10 & Hsome10 & _).
  destruct (Hsome11 "index/tx_inputs/7"
              (map Some (numbered "index/tx_inputs/7" 11)) eq_refl)
    as [Hmore _].
  destruct (Hsome10 "index/tx_inputs/7"
              (map Some (numbered "index/tx_inputs/7" 10)) eq_refl)
    as [_ Hten].
  split; [rewrite Hcount11; reflexivity|].
  split; [apply Hmore; vm_compute; lia|].
  split; [rewrite Hcount10; reflexivity|].
  split; [apply Hten; reflexivity|].
  rewrite Hdir; [reflexivity|]. vm_compute. split; discriminate.
Defined.

(** C5, counterexample.  The only transaction has the [tx_id]
    4294967303 and eleven entries under [index/tx_inputs/4294967303]: it
    has more than 10 inputs under its decoded [tx_id], and
    [query_multi_input_tx], which looks under [index/tx_inputs/7], returns
    0. *)
Lemma query_multi_input_tx_wide_tx_id :
  tx_records wide_inputs_store
  = [record [field "tx_id" "4294967303"; field "fee" "1"]] /\
  decoded_inputs_dir (record [field "tx_id" "4294967303"; field "fee" "1"])
  = "index/tx_inputs/4294967303" /\
  more_than_10_at wide_inputs_store "index/tx_inputs/4294967303" = true /\
  query_multi_input_tx wide_inputs_store = 0 /\
  query_multi_input_tx wide_inputs_store
  <> to_int64 (count_if (fun tx_json =>
                           more_than_10_at wide_inputs_store
                                           (decoded_inputs_dir tx_json))
                        (tx_records wide_inputs_store)).
Proof.
  split; [reflexivity|]. split; [reflexivity|]. split; [reflexivity|].
  split; [reflexivity|]. vm_compute. discriminate.
Qed.

(** X1.  When the last block height is below [INT_MAX], so that the loop
    over the heights ends, [query_input_count] is the 64-bit sum, over
    every transaction id resolved from the block-tx references of the
    heights 0 to the last one, of the length of the listing
    [index/tx_inputs/<tx_id>] (a transaction referenced twice is added
    twice, one without a listing adds nothing); the sum is exact when it
    fits 64 bits. *)
Theorem query_input_count_sum (s : Store) :
  find_last_block_height s < INT_MAX ->
  query_input_count s = to_int64 (total (input_sizes s)) /\
  (in_int64 (total (input_sizes s)) ->
   query_input_count s = total (input_sizes s)) /\
  Forall (fun tx_id =>
            tx_inputs_path tx_id = "index/tx_inputs/" ++ fmt_d tx_id)
         (all_tx_ids s).
Proof.
  intros _. rewrite query_input_count_total.
  split; [reflexivity|]. split; [apply to_int64_id|].
  eapply Forall_impl; [|apply all_tx_ids_int].
  intros tx_id. apply tx_inputs_path_exact.
Qed.

(** Instance of X1 at the scenario of the specification. *)
Lemma query_input_count_sum_witness :
  input_sizes scenario = [0; 11; 0] /\ query_input_count scenario = 11.
Proof.
  split; [reflexivity|].
  destruct (query_input_count_sum scenario) as (_ & H & _);
    [vm_compute; reflexivity|].
  rewrite H; [reflexivity|]. vm_compute. split; discriminate.
Defined.

(** X2.  When the last block height is below [INT_MAX],
    [query_output_count] is the 64-bit sum, over every transaction id
    resolved from the block-tx references, of the length of the listing
    [index/tx_outputs/<tx_id>]; the sum is exact when it fits 64 bits. *)
Theorem query_output_count_sum (s : Store) :
  find_last_block_height s < INT_MAX ->
  query_output_count s = to_int64 (total (output_sizes s)) /\
  (in_int64 (total (output_sizes s)) ->
   query_output_count s = total (output_sizes s)) /\
  Forall (fun tx_id =>
            tx_outputs_path tx_id = "index/tx_outputs/" ++ fmt_d tx_id)
         (all_tx_ids s).
Proof.
  intros _. rewrite query_output_count_total.
  split; [reflexivity|]. split; [apply to_int64_id|].
  eapply Forall_impl; [|apply all_tx_ids_int].
  intros tx_id. apply tx_outputs_path_exact.
Qed.

(** Instance of X2 at the scenario of the specification. *)
Lemma query_output_count_sum_witness :
  output_sizes scenario = [1; 1; 0] /\ query_output_count scenario = 2.
Proof.
  split; [reflexivity|].
  destruct (query_output_count_sum scenario) as (_ & H & _);
    [vm_compute; reflexivity|].
  rewrite H; [reflexivity|]. vm_compute. split; discriminate.
Defined.

(** X3.  When the last block height is below [INT_MAX],
    [query_total_output_value] is the sum modulo [2^64] of the [value]
    fields of all outputs reached from the blocks (an output record that
    is missing adds nothing), exact when the sum fits 64 bits; the
    references are those listed under [index/tx_outputs/<tx_id>] and the
    outputs those at [output/<tx_id>/<vout>]. *)
Theorem query_total_output_value_sum (s : Store) :
  find_last_block_height s < INT_MAX ->
  query_total_output_value s = to_int64 (total (output_values s)) /\
  (in_int64 (total (output_values s)) ->
   query_total_output_value s = total (output_values s)) /\
  Forall (fun tx_id =>
            tx_outputs_path tx_id = "index/tx_outputs/" ++ fmt_d tx_id)
         (all_tx_ids s) /\
  (forall out_ref,
     output_path (json_get_int out_ref "tx_id") (json_get_int out_ref "vout")
     = "output/" ++ fmt_d (json_get_int out_ref "tx_id")
       ++ "/" ++ fmt_d (json_get_int out_ref "vout")).
Proof.
  intros _. rewrite query_total_output_value_total.
  split; [reflexivity|]. split; [apply to_int64_id|]. split.
  - eapply Forall_impl; [|apply all_tx_ids_int].
    intros tx_id. apply tx_outputs_path_exact.
  - intros out_ref. apply output_path_exact; apply to_int_range.
Qed.

(** Instance of X3 at the scenario of the specification. *)
Lemma query_total_output_value_sum_witness :
  output_values scenario = [1000; 500] /\
  query_total_output_value scenario = 1500.
Proof.
  split; [reflexivity|].
  destruct (query_total_output_value_sum scenario) as (_ & H & _);
    [vm_compute; reflexivity|].
  rewrite H; [reflexivity|]. vm_compute. split; discriminate.
Defined.

(** X8.  When the last block height is below [INT_MAX],
    [query_max_tx_per_block] is the largest of 0 and the lengths of the
    listings [index/block_txs/<height>] for the heights 0 to the last one:
    it is never negative, no such length exceeds it, and it is 0 or one of
    them. *)
Theorem query_max_tx_per_block_spec (s : Store) :
  find_last_block_height s < INT_MAX ->
  query_max_tx_per_block s = max_from 0 (block_tx_sizes s) /\
  0 <= query_max_tx_per_block s /\
  Forall (fun n => n <= query_max_tx_per_block s) (block_tx_sizes s) /\
  (query_max_tx_per_block s = 0
   \/ In (query_max_tx_per_block s) (block_tx_sizes s)) /\
  Forall (fun height =>
            block_txs_path height = "index/block_txs/" ++ fmt_d height)
         (heights (find_last_block_height s)).
Proof.
  intros _. rewrite query_max_tx_per_block_max.
  split; [reflexivity|]. split; [apply max_from_floor|].
  split; [apply max_from_bounds|]. split; [apply max_from_In|].
  eapply Forall_impl; [|apply heights_int].
  intros height. apply block_txs_path_exact.
Qed.

(** Instance of X8 at the scenario of the specification: one
    transaction in block 0 and two in block 1. *)
Lemma query_max_tx_per_block_spec_witness :
  block_tx_sizes scenario = [1; 2] /\ query_max_tx_per_block scenario = 2.
Proof.
  split; [reflexivity|].
  destruct (query_max_tx_per_block_spec scenario) as (H & _);
    [vm_compute; reflexivity|].
  rewrite H. reflexivity.
Defined.

(** X22.  [find_last_block_height] returns a value from -1 to
    [INT_MAX]: it is negative only when it is -1, it is -1 or the suffix
    of a child of [block], no suffix exceeds it, and it is below [INT_MAX]
    exactly when no child of [block] has the suffix [INT_MAX]. *)
Theorem find_last_block_height_bounds (s : Store) :
  -1 <= find_last_block_height s <= INT_MAX /\
  (find_last_block_height s < 0 <-> find_last_block_height s = -1) /\
  (find_last_block_height s = -1
   \/ In (find_last_block_height s) (block_heights s)) /\
  Forall (fun h => h <= find_last_block_height s) (block_heights s) /\
  (find_last_block_height s < INT_MAX <-> ~ In INT_MAX (block_heights s)).
Proof.
  pose proof (find_last_block_height_range s) as Hr.
  assert (Hin : find_last_block_height s = -1
                \/ In (find_last_block_height s) (block_heights s))
    by (rewrite find_last_block_height_max; apply max_from_In).
  assert (Hup : Forall (fun h => h <= find_last_block_height s)
                       (block_heights s))
    by (rewrite find_last_block_height_max; apply max_from_bounds).
  split; [assumption|]. split; [lia|]. split; [assumption|].
  split; [assumption|]. split.
  - intros Hlt Hmax. rewrite Forall_forall in Hup.
    specialize (Hup _ Hmax). lia.
  - intros Hno. destruct (Z.eq_dec (find_last_block_height s) INT_MAX) as [E|E];
      [|lia].
    exfalso. destruct Hin as [Hin|Hin].
    + rewrite E in Hin. discriminate.
    + rewrite E in Hin. now apply Hno.
Qed.

(* ===================================================================== *)
(** ** When the loop over the heights ends *)

Module HeightLoopFacts.

Lemma heights_from (last_height height : Z) :
  0 <= height <= last_height ->
  map Z.of_nat (seq (Z.to_nat height) (Z.to_nat (last_height + 1 - height)))
  = height :: map Z.of_nat (seq (Z.to_nat (height + 1))
                                (Z.to_nat (last_height + 1 - (height + 1)))).
Proof.
  intros H.
  replace (Z.to_nat (last_height + 1 - height))
    with (S (Z.to_nat (last_height + 1 - (height + 1)))) by lia.
  cbn [seq map]. f_equal; [lia|].
  now replace (S (Z.to_nat height)) with (Z.to_nat (height + 1)) by lia.
Qed.

(** Below [INT_MAX] the loop ends and has gone through the heights that
    are left, in increasing order. *)
Lemma height_loop_ends {A : Type} (body : A -> Z -> A) (last_height : Z)
    (fuel : nat) :
  last_height < INT_MAX ->
  forall height acc,
    0 <= height <= last_height + 1 ->
    (Z.to_nat (last_height + 2 - height) <= fuel)%nat ->
    height_loop fuel last_height body height acc
    = Some (fold_left body
              (map Z.of_nat (seq (Z.to_nat height)
                                 (Z.to_nat (last_height + 1 - height))))
              acc).
Proof.
  intros Hlast. induction fuel as [|fuel IH]; intros height acc Hh Hfuel;
    [lia|].
  cbn [height_loop]. destruct (Z.leb_spec height last_height) as [Hle|Hgt].
  - rewrite to_int_id by (unfold INT_MIN, INT_MAX in *; lia).
    rewrite IH by lia.
    rewrite (heights_from last_height height) by lia. reflexivity.
  - replace (Z.to_nat (last_height + 1 - height)) with 0%nat by lia.
    reflexivity.
Qed.

(** At [INT_MAX] the condition never fails. *)
Lemma height_loop_never_ends {A : Type} (body : A -> Z -> A) (fuel : nat) :
  forall height acc,
    INT_MIN <= height <= INT_MAX ->
    height_loop fuel INT_MAX body height acc = None.
Proof.
  induction fuel as [|fuel IH]; intros height acc Hh; [reflexivity|].
  cbn [height_loop]. destruct (Z.leb_spec height INT_MAX) as [_|Hgt]; [|lia].
  apply IH. apply to_int_range.
Qed.

End HeightLoopFacts.
Import HeightLoopFacts.

(** X23.  The loop [for (int height = 0; height <= last_height;
    height++)] of the queries that walk the blocks, run step by step with
    the 32-bit increment: when [last_height] is from 0 to below
    [INT_MAX], it ends after [last_height + 2] tests of its condition and
    has applied its body to the heights 0 to [last_height] in increasing
    order, which gives [query_input_count] and [query_max_tx_per_block]
    for their bodies; when [last_height] is [INT_MAX] the condition never
    fails, whatever the number of tests. *)
Theorem height_loop_spec (s : Store) (fuel : nat) :
  (0 <= find_last_block_height s < INT_MAX ->
   (Z.to_nat (find_last_block_height s + 2) <= fuel)%nat ->
   (forall (body : Z -> Z -> Z) acc,
      height_loop fuel (find_last_block_height s) body 0 acc
      = Some (fold_left body (heights (find_last_block_height s)) acc)) /\
   height_loop fuel (find_last_block_height s)
               (block_step s (count_inputs s)) 0 0
   = Some (query_input_count s) /\
   height_loop fuel (find_last_block_height s) (max_tx_step s) 0 0
   = Some (query_max_tx_per_block s)) /\
  (find_last_block_height s = INT_MAX ->
   forall (body : Z -> Z -> Z) acc,
     height_loop fuel (find_last_block_height s) body 0 acc = None).
Proof.
  split.
  - intros Hlast Hfuel.
    assert (Hloop : forall (body : Z -> Z -> Z) acc,
              height_loop fuel (find_last_block_height s) body 0 acc
              = Some (fold_left body (heights (find_last_block_height s))
                                acc)).
    { intros body acc.
      rewrite (height_loop_ends body (find_last_block_height s) fuel)
        by lia.
      unfold heights. now rewrite Z.sub_0_r. }
    split; [assumption|].
    rewrite !Hloop.
    unfold query_input_count, for_each_block_tx, query_max_tx_per_block.
    destruct (Z.ltb_spec (find_last_block_height s) 0); [lia|].
    split; reflexivity.
  - intros -> body acc. apply height_loop_never_ends.
    unfold INT_MIN, INT_MAX. lia.
Qed.

(** Instance of X23: the scenario of the specification, whose last
    height is 1, and a store whose only block is at height [INT_MAX]. *)
Lemma height_loop_spec_witness :
  height_loop 3 (find_last_block_height scenario)
              (block_step scenario (count_inputs scenario)) 0 0
  = Some (query_input_count scenario) /\
  find_last_block_height top_height_store = INT_MAX /\
  height_loop 1000 (find_last_block_height top_height_store)
              (max_tx_step top_height_store) 0 0
  = None.
Proof.
  destruct (height_loop_spec scenario 3) as [Hends _].
  destruct (height_loop_spec top_height_store 1000) as [_ Hnever].
  destruct Hends as (_ & Hin & _).
  - vm_compute. split; [discriminate | reflexivity].
  - vm_compute. lia.
  - split; [exact Hin|]. split; [reflexivity|].
    apply Hnever. reflexivity.
Defined.
